(** * Urho3D draw-call batching: [Engine/Graphics/Batch.cpp]

    A shallow embedding of the batch sort key, the batch queue (collection,
    the two sort policies, instancing-buffer allocation) and the batch and
    batch-group draw routines, followed by the properties of the
    specification that concern them.

    Conventions of the embedding.
    - A pointer is its address, a [Z]; the null pointer is [0].
    - [unsigned] values are [Z] with the 32-bit wrap-around written where
      the code does arithmetic on them ([wrap32]); the 64-bit sort key is
      wrapped by [wrap64].
    - Container sizes and loop indices bounded by a size are [nat].
    - [distance_] is a [float] that the code only compares ([<], [>],
      [==]); a distance is held as an integer under an order embedding of
      the ordered (non-NaN) floats.
    - A [Matrix3x4] is only ever copied; it is held as the list of the bit
      patterns of its floats.
    - [Batch*] elements of the sorted views are indices into [batches_];
      [BatchGroup*] elements are the keys of the map nodes they point to. *)

From Stdlib Require Import ZArith List Bool Lia Permutation Sorted.
Import ListNotations.
Local Open Scope Z_scope.

(** ** Machine integers and pointers *)

Definition ptr := Z.

Definition wrap32 (x : Z) : Z := x mod 2 ^ 32.
Definition wrap64 (x : Z) : Z := x mod 2 ^ 64.

(** [*((unsigned* )&p)]: the low 32-bit word of a pointer. *)
Definition low32 (p : ptr) : Z := p mod 2 ^ 32.

(** [M_MAX_UNSIGNED], the "not yet written" value of [startIndex_]. *)
Definition M_MAX_UNSIGNED : Z := 4294967295.

Definition Matrix3x4 := list Z.

(** ** Data *)

Record Batch := mkBatch {
  distance_ : Z;
  sortKey_ : Z;
  geometry_ : ptr;
  material_ : ptr;
  pass_ : ptr;
  vertexShader_ : ptr;
  pixelShader_ : ptr;
  camera_ : ptr;
  lightQueue_ : ptr;
  worldTransform_ : ptr;
  shaderData_ : ptr;
  shaderDataSize_ : Z;
  vertexShaderIndex_ : nat;
  geometryType_ : Z;
  overrideView_ : bool;
  hasPriority_ : bool
}.

Definition set_sortKey (b : Batch) (k : Z) : Batch :=
  mkBatch (distance_ b) k (geometry_ b) (material_ b) (pass_ b)
    (vertexShader_ b) (pixelShader_ b) (camera_ b) (lightQueue_ b)
    (worldTransform_ b) (shaderData_ b) (shaderDataSize_ b)
    (vertexShaderIndex_ b) (geometryType_ b) (overrideView_ b)
    (hasPriority_ b).

Record InstanceData := mkInstanceData {
  i_worldTransform_ : ptr;
  i_distance_ : Z
}.

Record BatchGroupKey := mkBatchGroupKey {
  k_lightQueue_ : ptr;
  k_pass_ : ptr;
  k_material_ : ptr;
  k_geometry_ : ptr
}.

Record BatchGroup := mkBatchGroup {
  g_instances_ : list InstanceData;
  g_geometry_ : ptr;
  g_material_ : ptr;
  g_pass_ : ptr;
  g_vertexShader_ : ptr;
  g_pixelShader_ : ptr;
  g_camera_ : ptr;
  g_lightQueue_ : ptr;
  g_vertexShaderIndex_ : nat;
  g_startIndex_ : Z
}.

Definition set_instances (g : BatchGroup) (l : list InstanceData) : BatchGroup :=
  mkBatchGroup l (g_geometry_ g) (g_material_ g) (g_pass_ g)
    (g_vertexShader_ g) (g_pixelShader_ g) (g_camera_ g) (g_lightQueue_ g)
    (g_vertexShaderIndex_ g) (g_startIndex_ g).

Definition set_startIndex (g : BatchGroup) (s : Z) : BatchGroup :=
  mkBatchGroup (g_instances_ g) (g_geometry_ g) (g_material_ g) (g_pass_ g)
    (g_vertexShader_ g) (g_pixelShader_ g) (g_camera_ g) (g_lightQueue_ g)
    (g_vertexShaderIndex_ g) s.

(** ** The sort key *)

Section SortKey.

(** [sizeof(LightBatchQueue)], [sizeof(Pass)], [sizeof(Material)] and
    [sizeof(Geometry)]: fixed by headers that are not part of this file. *)
Variables sizeof_LightBatchQueue sizeof_Pass sizeof_Material sizeof_Geometry : Z.

Definition lightQueueField (b : Batch) : Z :=
  Z.land (low32 (lightQueue_ b) / sizeof_LightBatchQueue) 0x7fff.
Definition passField (b : Batch) : Z :=
  Z.land (low32 (pass_ b) / sizeof_Pass) 0xffff.
Definition materialField (b : Batch) : Z :=
  Z.land (low32 (material_ b) / sizeof_Material) 0xffff.
Definition geometryField (b : Batch) : Z :=
  Z.land (low32 (geometry_ b) / sizeof_Geometry) 0xffff.

Definition CalculateSortKey (b : Batch) : Batch :=
  let lightQueue := lightQueueField b in
  let pass := passField b in
  let material := materialField b in
  let geometry := geometryField b in
  let lightQueue := if hasPriority_ b then Z.lor lightQueue 0x8000 else lightQueue in
  set_sortKey b
    (Z.lor (Z.lor (Z.lor (wrap64 (Z.shiftl lightQueue 48))
                         (wrap64 (Z.shiftl pass 32)))
                  (wrap64 (Z.shiftl material 16)))
           geometry).

(** A batch whose [sortKey_] holds what [CalculateSortKey] computes. *)
Definition sortKeyComputed (b : Batch) : Prop :=
  sortKey_ b = sortKey_ (CalculateSortKey b).

End SortKey.

(** ** Comparison functions *)

Definition CompareBatchesFrontToBack (lhs rhs : Batch) : bool :=
  if sortKey_ lhs =? sortKey_ rhs
  then distance_ lhs <? distance_ rhs
  else sortKey_ lhs >? sortKey_ rhs.

Definition CompareBatchesBackToFront (lhs rhs : Batch) : bool :=
  if distance_ lhs =? distance_ rhs
  then sortKey_ lhs >? sortKey_ rhs
  else distance_ lhs >? distance_ rhs.

Definition CompareInstancesFrontToBack (lhs rhs : InstanceData) : bool :=
  i_distance_ lhs <? i_distance_ rhs.

(** [instances_[0].distance_].  On an empty vector the read is out of
    range; the model reads [0] there.  Groups made by [AddBatch] are never
    empty. *)
Definition firstDistance (g : BatchGroup) : Z :=
  match g_instances_ g with
  | i :: _ => i_distance_ i
  | [] => 0
  end.

Definition CompareBatchGroupsFrontToBack (lhs rhs : BatchGroup) : bool :=
  firstDistance lhs <? firstDistance rhs.

(** ** The group map

    Modelled from the spec: [Map<BatchGroupKey, BatchGroup>] (the container
    and the key's ordering are declared in headers that are not part of
    this file).  The spec speaks of "keyed maps from group key to
    BatchGroup" walked "in their current map order".  The model is an
    association list with unique keys, iterated from its head and kept in
    ascending lexicographic order of the key's four addresses. *)

Definition BatchGroupKey_eqb (a b : BatchGroupKey) : bool :=
  (k_lightQueue_ a =? k_lightQueue_ b) && (k_pass_ a =? k_pass_ b) &&
  (k_material_ a =? k_material_ b) && (k_geometry_ a =? k_geometry_ b).

Definition BatchGroupKey_ltb (a b : BatchGroupKey) : bool :=
  if k_lightQueue_ a =? k_lightQueue_ b then
    if k_pass_ a =? k_pass_ b then
      if k_material_ a =? k_material_ b then k_geometry_ a <? k_geometry_ b
      else k_material_ a <? k_material_ b
    else k_pass_ a <? k_pass_ b
  else k_lightQueue_ a <? k_lightQueue_ b.

Definition Map := list (BatchGroupKey * BatchGroup).

Fixpoint Map_Find (k : BatchGroupKey) (m : Map) : option BatchGroup :=
  match m with
  | [] => None
  | (k', g) :: m' => if BatchGroupKey_eqb k k' then Some g else Map_Find k m'
  end.

Fixpoint Map_Insert (k : BatchGroupKey) (g : BatchGroup) (m : Map) : Map :=
  match m with
  | [] => [(k, g)]
  | (k', g') :: m' =>
      if BatchGroupKey_eqb k k' then (k, g) :: m'
      else if BatchGroupKey_ltb k k' then (k, g) :: m
      else (k', g') :: Map_Insert k g m'
  end.

(** Mutation of the value of the node an iterator points to. *)
Fixpoint Map_Update (k : BatchGroupKey) (f : BatchGroup -> BatchGroup) (m : Map) : Map :=
  match m with
  | [] => []
  | (k', g) :: m' =>
      if BatchGroupKey_eqb k k' then (k', f g) :: m'
      else (k', g) :: Map_Update k f m'
  end.

Definition Map_keys (m : Map) : list BatchGroupKey := map fst m.

(** ** The batch queue *)

Record BatchQueue := mkBatchQueue {
  batches_ : list Batch;
  sortedPriorityBatches_ : list nat;
  sortedBatches_ : list nat;
  priorityBatchGroups_ : Map;
  batchGroups_ : Map;
  sortedPriorityBatchGroups_ : list BatchGroupKey;
  sortedBatchGroups_ : list BatchGroupKey
}.

(** Modelled from the spec: the default constructors of [Batch] and
    [BatchGroup] (declared in a header that is not part of this file).  A
    fresh group's start index is the sentinel "not yet written"; the other
    fields are taken as zero. *)
Definition Batch_default : Batch :=
  mkBatch 0 0 0 0 0 0 0 0 0 0 0 0 0 0 false false.

Definition BatchGroup_default : BatchGroup :=
  mkBatchGroup [] 0 0 0 0 0 0 0 0 M_MAX_UNSIGNED.

Definition Clear (q : BatchQueue) : BatchQueue :=
  mkBatchQueue [] [] [] [] []
    (sortedPriorityBatchGroups_ q) (sortedBatchGroups_ q).

Definition keyOf (batch : Batch) : BatchGroupKey :=
  mkBatchGroupKey (lightQueue_ batch) (pass_ batch) (material_ batch) (geometry_ batch).

Definition instanceOf (batch : Batch) : InstanceData :=
  mkInstanceData (worldTransform_ batch) (distance_ batch).

(** The group seeded from the first batch of its key. *)
Definition newGroupOf (batch : Batch) : BatchGroup :=
  mkBatchGroup [instanceOf batch] (geometry_ batch) (material_ batch)
    (pass_ batch) (vertexShader_ batch) (pixelShader_ batch) (camera_ batch)
    (lightQueue_ batch) (vertexShaderIndex_ batch)
    (g_startIndex_ BatchGroup_default).

Definition pushInstance (i : InstanceData) (g : BatchGroup) : BatchGroup :=
  set_instances g (g_instances_ g ++ [i]).

Definition addToGroups (batch : Batch) (groups : Map) : Map :=
  let key := keyOf batch in
  match Map_Find key groups with
  | None => Map_Insert key (newGroupOf batch) groups
  | Some _ => Map_Update key (pushInstance (instanceOf batch)) groups
  end.

Section Collect.

(** The enumerator [GEOM_STATIC] of the geometry types. *)
Variable GEOM_STATIC : Z.

(** The test that sends a batch to the loose list. *)
Definition notInstanceable (batch : Batch) (noInstancing : bool) : bool :=
  noInstancing || negb (geometryType_ batch =? GEOM_STATIC) ||
  overrideView_ batch || negb (shaderData_ batch =? 0).

Definition AddBatch (batch : Batch) (noInstancing : bool) (q : BatchQueue) : BatchQueue :=
  if notInstanceable batch noInstancing then
    mkBatchQueue (batches_ q ++ [batch])
      (sortedPriorityBatches_ q) (sortedBatches_ q)
      (priorityBatchGroups_ q) (batchGroups_ q)
      (sortedPriorityBatchGroups_ q) (sortedBatchGroups_ q)
  else if hasPriority_ batch then
    mkBatchQueue (batches_ q)
      (sortedPriorityBatches_ q) (sortedBatches_ q)
      (addToGroups batch (priorityBatchGroups_ q)) (batchGroups_ q)
      (sortedPriorityBatchGroups_ q) (sortedBatchGroups_ q)
  else
    mkBatchQueue (batches_ q)
      (sortedPriorityBatches_ q) (sortedBatches_ q)
      (priorityBatchGroups_ q) (addToGroups batch (batchGroups_ q))
      (sortedPriorityBatchGroups_ q) (sortedBatchGroups_ q).

(** A sequence of [AddBatch] calls, first call first. *)
Definition AddBatches (calls : list (Batch * bool)) (q : BatchQueue) : BatchQueue :=
  fold_left (fun q c => AddBatch (fst c) (snd c) q) calls q.

End Collect.

(** ** Sorting *)

(** [batches_[i]], reached through a [Batch*] of a sorted view. *)
Definition batchAt (q : BatchQueue) (i : nat) : Batch :=
  nth i (batches_ q) Batch_default.

(** The group a [BatchGroup*] of a sorted view points to. *)
Definition groupAt (m : Map) (k : BatchGroupKey) : BatchGroup :=
  match Map_Find k m with
  | Some g => g
  | None => BatchGroup_default
  end.

Section Sorting.

(** [Sort(begin, end, compare)] of the container library, which is not part
    of this file: taken as a parameter. *)
Variable Sort : forall A : Type, (A -> A -> bool) -> list A -> list A.

Definition sortInstances (m : Map) : Map :=
  map (fun kg => (fst kg,
         set_instances (snd kg)
           (Sort InstanceData CompareInstancesFrontToBack (g_instances_ (snd kg))))) m.

Definition SortBackToFront (q : BatchQueue) : BatchQueue :=
  let sorted :=
    Sort nat (fun i j => CompareBatchesBackToFront (batchAt q i) (batchAt q j))
      (seq 0 (length (batches_ q))) in
  mkBatchQueue (batches_ q) [] sorted
    (priorityBatchGroups_ q) (batchGroups_ q)
    (Map_keys (priorityBatchGroups_ q)) (Map_keys (batchGroups_ q)).

Definition SortFrontToBack (q : BatchQueue) : BatchQueue :=
  let all := seq 0 (length (batches_ q)) in
  let priority := filter (fun i => hasPriority_ (batchAt q i)) all in
  let others := filter (fun i => negb (hasPriority_ (batchAt q i))) all in
  let cmp := fun i j => CompareBatchesFrontToBack (batchAt q i) (batchAt q j) in
  let priorityGroups := sortInstances (priorityBatchGroups_ q) in
  let groups := sortInstances (batchGroups_ q) in
  let cmpIn := fun (m : Map) k1 k2 =>
    CompareBatchGroupsFrontToBack (groupAt m k1) (groupAt m k2) in
  mkBatchQueue (batches_ q)
    (Sort nat cmp priority) (Sort nat cmp others)
    priorityGroups groups
    (Sort BatchGroupKey (cmpIn priorityGroups) (Map_keys priorityGroups))
    (Sort BatchGroupKey (cmpIn groups) (Map_keys groups)).

End Sorting.

(** Modelled from the spec: the order in which the loose batches of a
    sorted queue are submitted (the drawing of a whole queue is done by a
    caller that is not part of this file): "always priority before
    non-priority", each list in its sorted order. *)
Definition looseSubmissionOrder (q : BatchQueue) : list Batch :=
  map (batchAt q) (sortedPriorityBatches_ q ++ sortedBatches_ q).

(** ** External objects

    The objects the code reaches through pointers and getters.  Their
    classes are declared elsewhere; each is held as the record of what the
    getters used in [Batch.cpp] return. *)

Record VertexBuffer := mkVertexBuffer {
  vb_address : ptr;
  vb_GetVertexCount : nat;
  vb_GetElementMask : Z
}.

Record Renderer := mkRenderer {
  GetMinInstanceGroupSize : Z;
  GetMaxInstanceTriangles : Z;
  GetInstancingBuffer : option VertexBuffer
}.

Record Geometry := mkGeometry {
  GetIndexBuffer : ptr;
  GetVertexBuffers : list ptr;
  GetVertexElementMasks : list Z;
  GetPrimitiveType : Z;
  GetIndexStart : Z;
  GetIndexCount : Z;
  GetVertexStart : Z;
  GetVertexCount : Z
}.

Inductive PassType := PASS_LIGHT | PASS_LITBASE | PASS_SHADOW | PASS_other.

Record Pass := mkPass {
  GetType : PassType;
  GetVertexShaders : list ptr;
  GetPixelShaders : list ptr
}.

(** The objects in memory, by address. *)
Record Heap := mkHeap {
  geometries : ptr -> Geometry;
  passes : ptr -> Pass;
  transforms : ptr -> Matrix3x4
}.

(** The two thresholds as the code computes them into [unsigned] locals. *)
Definition minGroupSize (renderer : Renderer) : Z :=
  wrap32 (GetMinInstanceGroupSize renderer).
Definition maxIndexCount (renderer : Renderer) : Z :=
  wrap32 (GetMaxInstanceTriangles renderer * 3).

Definition Size {A : Type} (v : list A) : Z := Z.of_nat (length v).

(** ** Writing transforms to the instancing buffer *)

(** The locked region [lockedData] of the instancing buffer, unconstrained
    in size: the log of the writes made to it, newest first, as pairs of a
    slot index and the matrix stored. *)
Definition LockedData := list (Z * Matrix3x4).

Fixpoint readSlot (data : LockedData) (slot : Z) : option Matrix3x4 :=
  match data with
  | [] => None
  | (s, m) :: data' => if s =? slot then Some m else readSlot data' slot
  end.

(** [for (i ...) *dest++ = *instances_[i].worldTransform_]. *)
Fixpoint writeTransforms (h : Heap) (instances : list InstanceData)
    (dest : Z) (data : LockedData) : LockedData :=
  match instances with
  | [] => data
  | i :: rest =>
      writeTransforms h rest (dest + 1)
        ((dest, transforms h (i_worldTransform_ i)) :: data)
  end.

(** The test under which a group takes no buffer space. *)
Definition notInstanced (renderer : Renderer) (h : Heap) (g : BatchGroup) : bool :=
  (Size (g_instances_ g) <? minGroupSize renderer) ||
  (GetIndexCount (geometries h (g_geometry_ g)) >? maxIndexCount renderer).

Definition BatchGroup_SetTransforms (renderer : Renderer) (h : Heap)
    (g : BatchGroup) (lockedData : LockedData) (freeIndex : Z)
    : BatchGroup * LockedData * Z :=
  if notInstanced renderer h g then (g, lockedData, freeIndex)
  else
    (set_startIndex g freeIndex,
     writeTransforms h (g_instances_ g) freeIndex lockedData,
     wrap32 (freeIndex + Size (g_instances_ g))).

Fixpoint Map_SetTransforms (renderer : Renderer) (h : Heap) (m : Map)
    (lockedData : LockedData) (freeIndex : Z) : Map * LockedData * Z :=
  match m with
  | [] => ([], lockedData, freeIndex)
  | (k, g) :: m' =>
      let '(g1, data1, free1) :=
        BatchGroup_SetTransforms renderer h g lockedData freeIndex in
      let '(m1, data2, free2) := Map_SetTransforms renderer h m' data1 free1 in
      ((k, g1) :: m1, data2, free2)
  end.

Definition BatchQueue_SetTransforms (renderer : Renderer) (h : Heap)
    (q : BatchQueue) (lockedData : LockedData) (freeIndex : Z)
    : BatchQueue * LockedData * Z :=
  let '(pg, data1, free1) :=
    Map_SetTransforms renderer h (priorityBatchGroups_ q) lockedData freeIndex in
  let '(gs, data2, free2) :=
    Map_SetTransforms renderer h (batchGroups_ q) data1 free1 in
  (mkBatchQueue (batches_ q) (sortedPriorityBatches_ q) (sortedBatches_ q)
     pg gs (sortedPriorityBatchGroups_ q) (sortedBatchGroups_ q),
   data2, free2).

Fixpoint Map_countInstances (renderer : Renderer) (h : Heap) (m : Map)
    (total : Z) : Z :=
  match m with
  | [] => total
  | (_, g) :: m' =>
      let instances := Size (g_instances_ g) in
      if (instances >=? minGroupSize renderer) &&
         (GetIndexCount (geometries h (g_geometry_ g)) <=? maxIndexCount renderer)
      then Map_countInstances renderer h m' (wrap32 (total + instances))
      else Map_countInstances renderer h m' total
  end.

Definition GetNumInstances (renderer : Renderer) (h : Heap) (q : BatchQueue) : Z :=
  let total := 0 in
  let total := Map_countInstances renderer h (priorityBatchGroups_ q) total in
  let total := Map_countInstances renderer h (batchGroups_ q) total in
  total.

(** The number of matrices stored by a call that turned [before] into
    [after]. *)
Definition transformsWritten (before after : LockedData) : Z :=
  Size after - Size before.

(** ** Drawing

    The graphics device and the instancing vertex buffer are external; what
    the code does to them is recorded as the sequence of calls it makes,
    oldest first. *)

Inductive GraphicsCall :=
| PrepareState (batch : Batch) (setModelTransform : bool)
| GeometryDraw (geometry : ptr)
| SetIndexBuffer (buffer : ptr)
| SetVertexBuffers (buffers : list ptr) (elementMasks : list Z)
    (instanceOffset : option Z)
| SetModelTransform (m : Matrix3x4)
| Draw (type indexStart indexCount vertexStart vertexCount : Z)
| DrawInstanced (type indexStart indexCount vertexStart vertexCount : Z)
    (instances : nat)
| ClearTransformSources
| Lock (buffer : ptr) (start count : nat) (ok : bool)
| Store (buffer : ptr) (index : nat) (m : Matrix3x4)
| Unlock (buffer : ptr).

(** [lockResults] holds the outcomes of the coming [Lock] calls ([false]: the
    lock fails and returns null); once it is used up, locks succeed. *)
Record World := mkWorld {
  heap : Heap;
  calls : list GraphicsCall;
  lockResults : list bool
}.

Definition emit (c : GraphicsCall) (w : World) : World :=
  mkWorld (heap w) (calls w ++ [c]) (lockResults w).

Definition VertexBuffer_Lock (vb : VertexBuffer) (start count : nat) (w : World)
    : bool * World :=
  let ok := match lockResults w with [] => true | r :: _ => r end in
  (ok, mkWorld (heap w) (calls w ++ [Lock (vb_address vb) start count ok])
         (tl (lockResults w))).

Definition updateGeometry (p : ptr) (f : Geometry -> Geometry) (w : World) : World :=
  mkWorld
    (mkHeap (fun a => if a =? p then f (geometries (heap w) a)
                      else geometries (heap w) a)
            (passes (heap w)) (transforms (heap w)))
    (calls w) (lockResults w).

(** [vertexBuffers.Push(instanceBuffer); elementMasks.Push(mask)] on the
    geometry's own vectors. *)
Definition pushStream (vb : VertexBuffer) (geom : Geometry) : Geometry :=
  mkGeometry (GetIndexBuffer geom)
    (GetVertexBuffers geom ++ [vb_address vb])
    (GetVertexElementMasks geom ++ [vb_GetElementMask vb])
    (GetPrimitiveType geom) (GetIndexStart geom) (GetIndexCount geom)
    (GetVertexStart geom) (GetVertexCount geom).

(** [vertexBuffers.Pop(); elementMasks.Pop()]. *)
Definition popStream (geom : Geometry) : Geometry :=
  mkGeometry (GetIndexBuffer geom)
    (removelast (GetVertexBuffers geom))
    (removelast (GetVertexElementMasks geom))
    (GetPrimitiveType geom) (GetIndexStart geom) (GetIndexCount geom)
    (GetVertexStart geom) (GetVertexCount geom).

(** [Batch::Prepare].  After the shader test, the body binds render state,
    shaders, shader parameters and textures through the device's parameter
    cache, from values of the pass, material, light and camera objects;
    that whole body is recorded as the single call [PrepareState]. *)
Definition Batch_Prepare (batch : Batch) (setModelTransform : bool) (w : World) : World :=
  if (vertexShader_ batch =? 0) || (pixelShader_ batch =? 0) then w
  else emit (PrepareState batch setModelTransform) w.

(** [Batch::Draw]: [geometry_->Draw(graphics)] is recorded as
    [GeometryDraw]. *)
Definition Batch_Draw (batch : Batch) (w : World) : World :=
  let w := Batch_Prepare batch true w in
  emit (GeometryDraw (geometry_ batch)) w.

Definition set_vertexShader (b : Batch) (vs : ptr) : Batch :=
  mkBatch (distance_ b) (sortKey_ b) (geometry_ b) (material_ b) (pass_ b)
    vs (pixelShader_ b) (camera_ b) (lightQueue_ b)
    (worldTransform_ b) (shaderData_ b) (shaderDataSize_ b)
    (vertexShaderIndex_ b) (geometryType_ b) (overrideView_ b)
    (hasPriority_ b).

(** The temporary batch [BatchGroup::Draw] builds. *)
Definition groupBatch (g : BatchGroup) : Batch :=
  mkBatch (distance_ Batch_default) (sortKey_ Batch_default)
    (g_geometry_ g) (g_material_ g) (g_pass_ g)
    (g_vertexShader_ g) (g_pixelShader_ g) (g_camera_ g) (g_lightQueue_ g)
    (worldTransform_ Batch_default) (shaderData_ Batch_default)
    (shaderDataSize_ Batch_default) (g_vertexShaderIndex_ g)
    (geometryType_ Batch_default) (overrideView_ Batch_default)
    (hasPriority_ Batch_default).

Definition InstanceData_default : InstanceData := mkInstanceData 0 0.

Definition emitDraw (g : BatchGroup) (w : World) : World :=
  let geom := geometries (heap w) (g_geometry_ g) in
  emit (Draw (GetPrimitiveType geom) (GetIndexStart geom) (GetIndexCount geom)
          (GetVertexStart geom) (GetVertexCount geom)) w.

Definition emitDrawInstanced (g : BatchGroup) (instances : nat) (w : World) : World :=
  let geom := geometries (heap w) (g_geometry_ g) in
  emit (DrawInstanced (GetPrimitiveType geom) (GetIndexStart geom)
          (GetIndexCount geom) (GetVertexStart geom) (GetVertexCount geom)
          instances) w.

Definition emitSetBuffers (g : BatchGroup) (instanceOffset : option Z) (w : World) : World :=
  let geom := geometries (heap w) (g_geometry_ g) in
  let w := emit (SetIndexBuffer (GetIndexBuffer geom)) w in
  emit (SetVertexBuffers (GetVertexBuffers geom) (GetVertexElementMasks geom)
          instanceOffset) w.

(** The fallback: one draw per instance. *)
Definition drawIndividually (batch : Batch) (g : BatchGroup) (w : World) : World :=
  let w := Batch_Prepare batch false w in
  let w := emitSetBuffers g None w in
  let w :=
    fold_left (fun w i =>
        emitDraw g (emit (SetModelTransform (transforms (heap w) (i_worldTransform_ i))) w))
      (g_instances_ g) w in
  emit ClearTransformSources w.

(** [for (i < instances) dest[i] = *instances_[i + startIndex].worldTransform_]. *)
Definition copyTransforms (g : BatchGroup) (vb : VertexBuffer)
    (startIndex instances : nat) (w : World) : World :=
  fold_left (fun w i =>
      emit (Store (vb_address vb) i
              (transforms (heap w)
                 (i_worldTransform_
                    (nth (i + startIndex) (g_instances_ g) InstanceData_default)))) w)
    (seq 0 instances) w.

Inductive LoopResult :=
| Completed (w : World)
| Aborted (w : World)
| OutOfFuel.

(** The [while (startIndex < instances_.Size())] loop of the path without
    a stream offset. *)
Fixpoint fillAndDraw (fuel : nat) (g : BatchGroup) (instanceBuffer : VertexBuffer)
    (startIndex : nat) (w : World) {struct fuel} : LoopResult :=
  if (startIndex <? length (g_instances_ g))%nat then
    match fuel with
    | O => OutOfFuel
    | S fuel' =>
        let instances := (length (g_instances_ g) - startIndex)%nat in
        let instances :=
          if (vb_GetVertexCount instanceBuffer <? instances)%nat
          then vb_GetVertexCount instanceBuffer else instances in
        let '(data, w) := VertexBuffer_Lock instanceBuffer 0 instances w in
        if negb data then
          Aborted (updateGeometry (g_geometry_ g) popStream w)
        else
          let w := copyTransforms g instanceBuffer startIndex instances w in
          let w := emit (Unlock (vb_address instanceBuffer)) w in
          let w := emitSetBuffers g None w in
          let w := emitDrawInstanced g instances w in
          fillAndDraw fuel' g instanceBuffer (startIndex + instances) w
    end
  else Completed w.

Section Drawing.

(** The enumerator [GEOM_INSTANCED] and the constant
    [MAX_LIGHT_VS_VARIATIONS] of the graphics definitions. *)
Variables GEOM_INSTANCED MAX_LIGHT_VS_VARIATIONS : Z.

(** The index of the instancing vertex shader in the pass's table. *)
Definition instancedShaderIndex (type : PassType) (vertexShaderIndex : nat) : nat :=
  match type with
  | PASS_LIGHT | PASS_LITBASE =>
      Z.to_nat (wrap32 (Z.of_nat vertexShaderIndex +
                        wrap32 (GEOM_INSTANCED * MAX_LIGHT_VS_VARIATIONS)))
  | _ => Z.to_nat (wrap32 (Z.of_nat vertexShaderIndex + GEOM_INSTANCED))
  end.

(** The instanced branch up to and including the push of the instancing
    stream. *)
Definition beginInstanced (g : BatchGroup) (instanceBuffer : VertexBuffer) (w : World) : World :=
  let pass := passes (heap w) (g_pass_ g) in
  let vertexShaders := GetVertexShaders pass in
  let type := GetType pass in
  let batch :=
    set_vertexShader (groupBatch g)
      (nth (instancedShaderIndex type (g_vertexShaderIndex_ g)) vertexShaders 0) in
  let w := Batch_Prepare batch false w in
  updateGeometry (g_geometry_ g) (pushStream instanceBuffer) w.

(** [BatchGroup::Draw].  The chunk loop runs on fuel that covers every
    terminating run: with a positive capacity each turn draws an instance,
    and with capacity zero a turn ends the loop only by a failing lock,
    of which [lockResults] holds finitely many.  [None]: the loop does
    not terminate (a buffer of capacity zero whose locks succeed). *)
Definition BatchGroup_Draw (renderer : Renderer) (g : BatchGroup) (w : World)
    : option World :=
  if (length (g_instances_ g) =? 0)%nat then Some w
  else
    match GetInstancingBuffer renderer with
    | None => Some (drawIndividually (groupBatch g) g w)
    | Some instanceBuffer =>
        if notInstanced renderer (heap w) g then
          Some (drawIndividually (groupBatch g) g w)
        else
          let w := beginInstanced g instanceBuffer w in
          if g_startIndex_ g =? M_MAX_UNSIGNED then
            match fillAndDraw (length (g_instances_ g) + length (lockResults w))
                    g instanceBuffer 0 w with
            | Completed w => Some (updateGeometry (g_geometry_ g) popStream w)
            | Aborted w => Some w
            | OutOfFuel => None
            end
          else
            let w := emitSetBuffers g (Some (g_startIndex_ g)) w in
            let w := emitDrawInstanced g (length (g_instances_ g)) w in
            Some (updateGeometry (g_geometry_ g) popStream w)
    end.

End Drawing.

(** ** Notions used in the statements *)

(** What [Sort] asks of its comparison function. *)
Definition StrictWeakOrder {A : Type} (cmp : A -> A -> bool) : Prop :=
  (forall a, cmp a a = false) /\
  (forall a b c, cmp a b = true -> cmp b c = true -> cmp a c = true) /\
  (forall a b c, cmp a b = false -> cmp b c = false -> cmp a c = false).

(** What [Sort] promises: the range is rearranged so that no element
    compares before its predecessor. *)
Definition SortContract (Sort : forall A : Type, (A -> A -> bool) -> list A -> list A) : Prop :=
  forall (A : Type) (cmp : A -> A -> bool) (l : list A),
    StrictWeakOrder cmp ->
    Permutation l (Sort A cmp l) /\
    Sorted (fun x y => cmp y x = false) (Sort A cmp l).

(** A sort that meets the contract: straight insertion. *)
Fixpoint insertInto {A : Type} (cmp : A -> A -> bool) (x : A) (l : list A) : list A :=
  match l with
  | [] => [x]
  | y :: l' => if cmp x y then x :: y :: l' else y :: insertInto cmp x l'
  end.

Definition InsertionSort (A : Type) (cmp : A -> A -> bool) (l : list A) : list A :=
  fold_right (insertInto cmp) [] l.

(** [R] holds of every two neighbours of [l]. *)
Definition adjacentPairs {A : Type} (R : A -> A -> Prop) (l : list A) : Prop :=
  forall i a b, nth_error l i = Some a -> nth_error l (S i) = Some b -> R a b.

(** Every batch with the priority flag comes strictly before every batch
    without it. *)
Definition priorityFirst (order : list Batch) : Prop :=
  forall i j a b,
    nth_error order i = Some a -> nth_error order j = Some b ->
    hasPriority_ a = true -> hasPriority_ b = false -> (i < j)%nat.

(** Descending sort key, ties by ascending distance. *)
Definition frontToBackOrder (a b : Batch) : Prop :=
  sortKey_ a >= sortKey_ b /\ (sortKey_ a = sortKey_ b -> distance_ a <= distance_ b).

(** Descending distance, ties by descending sort key. *)
Definition backToFrontOrder (a b : Batch) : Prop :=
  distance_ a >= distance_ b /\ (distance_ a = distance_ b -> sortKey_ a >= sortKey_ b).

Definition ascendingDistance (a b : InstanceData) : Prop :=
  i_distance_ a <= i_distance_ b.

(** Two groups whose first instances exist are in ascending order of the
    distance of those instances. *)
Definition nearestFirst (m : Map) (k1 k2 : BatchGroupKey) : Prop :=
  forall i1 i2,
    hd_error (g_instances_ (groupAt m k1)) = Some i1 ->
    hd_error (g_instances_ (groupAt m k2)) = Some i2 ->
    i_distance_ i1 <= i_distance_ i2.

(** A group of the sorted map against the group of the same node before
    the sort: same key, same shared fields, the instances rearranged into
    ascending distance. *)
Definition instancesSorted (before after : BatchGroupKey * BatchGroup) : Prop :=
  fst after = fst before /\
  snd after = set_instances (snd before) (g_instances_ (snd after)) /\
  Permutation (g_instances_ (snd before)) (g_instances_ (snd after)) /\
  adjacentPairs ascendingDistance (g_instances_ (snd after)).

(** The group that the batches [bs] of one key, in submission order, make:
    seeded by the first, one instance entry per batch. *)
Definition groupFrom (bs : list Batch) : option BatchGroup :=
  match bs with
  | [] => None
  | first :: _ => Some (set_instances (newGroupOf first) (map instanceOf bs))
  end.

(** The batches of a call sequence that go to the group of [key] in the
    priority ([priority = true]) or the other map, in submission order. *)
Definition groupedBatches (GEOM_STATIC : Z) (priority : bool) (key : BatchGroupKey)
    (calls : list (Batch * bool)) : list Batch :=
  map fst
    (filter (fun c =>
         negb (notInstanceable GEOM_STATIC (fst c) (snd c)) &&
         Bool.eqb (hasPriority_ (fst c)) priority &&
         BatchGroupKey_eqb (keyOf (fst c)) key)
       calls).

(** The batches of a call sequence that stay loose, in submission order. *)
Definition looseBatches (GEOM_STATIC : Z) (calls : list (Batch * bool)) : list Batch :=
  map fst (filter (fun c => notInstanceable GEOM_STATIC (fst c) (snd c)) calls).

(** The instance counts of the groups of a map that take buffer space,
    added up without wrap-around. *)
Fixpoint eligibleInstances (renderer : Renderer) (h : Heap) (m : Map) : Z :=
  match m with
  | [] => 0
  | (_, g) :: m' =>
      (if notInstanced renderer h g then 0 else Size (g_instances_ g)) +
      eligibleInstances renderer h m'
  end.

(** The sizes [min(remaining, capacity)] of successive chunks. *)
Fixpoint chunkSizes (fuel remaining capacity : nat) : list nat :=
  match fuel with
  | O => []
  | S fuel' =>
      if (remaining =? 0)%nat then []
      else
        let c := Nat.min remaining capacity in
        c :: chunkSizes fuel' (remaining - c) capacity
  end.

(** A list cut into consecutive pieces of the given sizes. *)
Fixpoint splitBy {A : Type} (sizes : list nat) (l : list A) : list (list A) :=
  match sizes with
  | [] => []
  | n :: sizes' => firstn n l :: splitBy sizes' (skipn n l)
  end.

(** The calls that draw one chunk: lock, store the chunk's transforms from
    slot 0 on, unlock, bind the buffers, draw. *)
Definition chunkCalls (h : Heap) (g : BatchGroup) (vb : VertexBuffer)
    (chunk : list InstanceData) : list GraphicsCall :=
  let geom := geometries h (g_geometry_ g) in
  [Lock (vb_address vb) 0 (length chunk) true] ++
  map (fun i => Store (vb_address vb) i
                  (transforms h (i_worldTransform_ (nth i chunk InstanceData_default))))
      (seq 0 (length chunk)) ++
  [Unlock (vb_address vb);
   SetIndexBuffer (GetIndexBuffer geom);
   SetVertexBuffers (GetVertexBuffers geom) (GetVertexElementMasks geom) None;
   DrawInstanced (GetPrimitiveType geom) (GetIndexStart geom) (GetIndexCount geom)
     (GetVertexStart geom) (GetVertexCount geom) (length chunk)].

(** The instance counts of the instanced draw calls of a trace, in order. *)
Fixpoint instancedDraws (cs : list GraphicsCall) : list nat :=
  match cs with
  | [] => []
  | DrawInstanced _ _ _ _ _ n :: cs' => n :: instancedDraws cs'
  | _ :: cs' => instancedDraws cs'
  end.

(** The draw calls of a trace, of either kind. *)
Definition isDrawCall (c : GraphicsCall) : bool :=
  match c with
  | GeometryDraw _ | Draw _ _ _ _ _ | DrawInstanced _ _ _ _ _ _ => true
  | _ => false
  end.

(** Every coming lock of the instancing buffer succeeds. *)
Definition locksSucceed (w : World) : Prop :=
  Forall (fun r => r = true) (lockResults w).

(** One turn of the chunk loop whose lock succeeded. *)
Definition chunkStep (g : BatchGroup) (vb : VertexBuffer)
    (startIndex instances : nat) (w : World) : World :=
  let w := copyTransforms g vb startIndex instances w in
  let w := emit (Unlock (vb_address vb)) w in
  let w := emitSetBuffers g None w in
  emitDrawInstanced g instances w.

(** The chunk loop unrolled along a list of chunk sizes. *)
Fixpoint runChunks (sizes : list nat) (g : BatchGroup) (vb : VertexBuffer)
    (startIndex : nat) (w : World) : LoopResult :=
  match sizes with
  | [] => Completed w
  | c :: sizes' =>
      let '(data, w) := VertexBuffer_Lock vb 0 c w in
      if negb data then Aborted (updateGeometry (g_geometry_ g) popStream w)
      else runChunks sizes' g vb (startIndex + c) (chunkStep g vb startIndex c w)
  end.

(** The five fields of a batch's sort key, most significant first. *)
Definition keyFields (sL sP sM sG : Z) (b : Batch) : Z * Z * Z * Z * Z :=
  (Z.b2z (hasPriority_ b), lightQueueField sL b, passField sP b,
   materialField sM b, geometryField sG b).

(** Lexicographic order on five integers. *)
Definition lexLt (x y : Z * Z * Z * Z * Z) : Prop :=
  let '(a1, a2, a3, a4, a5) := x in
  let '(b1, b2, b3, b4, b5) := y in
  a1 < b1 \/ (a1 = b1 /\ (a2 < b2 \/ (a2 = b2 /\ (a3 < b3 \/ (a3 = b3 /\
  (a4 < b4 \/ (a4 = b4 /\ a5 < b5))))))).

(** Two batches that agree on everything the sort key reads except the
    geometry. *)
Definition sameStateButGeometry (b b' : Batch) : Prop :=
  lightQueue_ b' = lightQueue_ b /\ pass_ b' = pass_ b /\
  material_ b' = material_ b /\ hasPriority_ b' = hasPriority_ b.

(** The number of instance entries held by the groups of a map. *)
Definition totalInstances (m : Map) : nat :=
  list_sum (map (fun kg => length (g_instances_ (snd kg))) m).

(** The number of batches a queue holds, loose or as an instance. *)
Definition queueSize (q : BatchQueue) : nat :=
  (length (batches_ q) + totalInstances (priorityBatchGroups_ q) +
   totalInstances (batchGroups_ q))%nat.

(** A map node as [AddBatch] makes it: at least one instance, stored
    under the key of the group's own light queue, pass, material and
    geometry, nothing yet written to the instancing buffer. *)
Definition groupWellFormed (kg : BatchGroupKey * BatchGroup) : Prop :=
  g_instances_ (snd kg) <> [] /\
  fst kg = mkBatchGroupKey (g_lightQueue_ (snd kg)) (g_pass_ (snd kg))
             (g_material_ (snd kg)) (g_geometry_ (snd kg)) /\
  g_startIndex_ (snd kg) = M_MAX_UNSIGNED.

(** A pointer of a sorted group list that points to a group of the map
    whose first instance exists and is the nearest of the group. *)
Definition pointsToNearestFirst (m : Map) (k : BatchGroupKey) : Prop :=
  exists g first,
    Map_Find k m = Some g /\ In (k, g) m /\
    hd_error (g_instances_ g) = Some first /\
    forall i, In i (g_instances_ g) -> i_distance_ first <= i_distance_ i.

(** A map node after [SetTransforms] against the node before, with the
    final buffer [data] and the cursor range [lo .. hi) of the call: a
    group that takes no buffer space is as it was; any other has only its
    start index changed, owns the slots from its start index on, one per
    instance, inside the range, and each slot holds the transform of its
    instance. *)
Definition allocated (renderer : Renderer) (h : Heap) (data : LockedData) (lo hi : Z)
    (before after : BatchGroupKey * BatchGroup) : Prop :=
  fst after = fst before /\
  if notInstanced renderer h (snd before) then snd after = snd before
  else
    snd after = set_startIndex (snd before) (g_startIndex_ (snd after)) /\
    lo <= g_startIndex_ (snd after) /\
    g_startIndex_ (snd after) + Size (g_instances_ (snd before)) <= hi /\
    forall i inst, nth_error (g_instances_ (snd before)) i = Some inst ->
      readSlot data (g_startIndex_ (snd after) + Z.of_nat i) =
      Some (transforms h (i_worldTransform_ inst)).

(** A map node after [SetTransforms]: the node before with at most its
    start index changed. *)
Definition onlyStartIndexChanged (before after : BatchGroupKey * BatchGroup) : Prop :=
  fst after = fst before /\
  snd after = set_startIndex (snd before) (g_startIndex_ (snd after)).

(** ** Sample inputs *)

Definition emptyQueue : BatchQueue := mkBatchQueue [] [] [] [] [] [] [].

(** A static batch without override view or shader data, its sort key
    computed with every object 64 bytes large. *)
Definition sampleBatch (distance : Z) (geometry transform : ptr) (priority : bool) : Batch :=
  CalculateSortKey 64 64 64 64
    (mkBatch distance 0 geometry 4096 8192 16 32 48 0 transform 0 0 0 0 false priority).

Definition farPlain : Batch := sampleBatch 10 640 1000 false.
Definition nearPriority : Batch := sampleBatch 1 640 1064 true.

(** Two loose batches: a far one without priority, a near one with it. *)
Definition twoLooseQueue : BatchQueue :=
  AddBatches 0 [(farPlain, true); (nearPriority, true)] (Clear emptyQueue).

(** Three instances of one geometry at distances 5, 1, 3, one priority
    instance of another, and three loose batches. *)
Definition sampleCalls : list (Batch * bool) :=
  [(sampleBatch 5 640 1000 false, false);
   (farPlain, true);
   (sampleBatch 1 640 1064 false, false);
   (sampleBatch 7 1280 1192 true, false);
   (nearPriority, true);
   (sampleBatch 3 640 1128 false, false);
   (sampleBatch 4 1280 1256 false, true)].

Definition sampleQueue : BatchQueue := AddBatches 0 sampleCalls (Clear emptyQueue).

Definition sampleGeometry : Geometry := mkGeometry 7000 [7100] [3] 4 0 36 0 24.

Definition sampleHeap : Heap :=
  mkHeap (fun _ => sampleGeometry)
         (fun _ => mkPass PASS_other [16; 17; 18; 19] [32])
         (fun p => [p]).

(** An instancing buffer of capacity 2. *)
Definition sampleBuffer : VertexBuffer := mkVertexBuffer 9000 2 448.

Definition sampleRenderer : Renderer := mkRenderer 2 10000 (Some sampleBuffer).

(** A group of five instances without a start offset. *)
Definition sampleGroup : BatchGroup :=
  mkBatchGroup
    [mkInstanceData 1000 5; mkInstanceData 1064 1; mkInstanceData 1128 3;
     mkInstanceData 1192 4; mkInstanceData 1256 2]
    640 4096 8192 16 32 48 0 0 M_MAX_UNSIGNED.

Definition sampleWorld : World := mkWorld sampleHeap [] [].

(** The second lock of the instancing buffer fails. *)
Definition failingWorld : World := mkWorld sampleHeap [] [true; false; true].

(** A batch without a vertex shader. *)
Definition shaderlessBatch : Batch :=
  mkBatch 3 0 640 4096 8192 0 32 48 0 1000 0 0 0 0 false false.

(** A batch in the state of [farPlain] whose geometry lies 65536 objects
    further. *)
Definition aliasedBatch : Batch := sampleBatch 10 (640 + 65536 * 64) 1000 false.

(** A renderer whose instancing buffer has capacity zero. *)
Definition zeroCapacityRenderer : Renderer :=
  mkRenderer 2 10000 (Some (mkVertexBuffer 9000 0 448)).

(** The calls that draw one instance on its own: bind its transform,
    draw the geometry's range. *)
Definition individualCalls (h : Heap) (g : BatchGroup) (i : InstanceData)
    : list GraphicsCall :=
  let geom := geometries h (g_geometry_ g) in
  [SetModelTransform (transforms h (i_worldTransform_ i));
   Draw (GetPrimitiveType geom) (GetIndexStart geom) (GetIndexCount geom)
     (GetVertexStart geom) (GetVertexCount geom)].

(** What a draw leaves of the world it was given: the objects in memory
    are as before, geometries included; calls were only added; lock
    results were only used up from the front. *)
Definition drawFrame (w w' : World) : Prop :=
  (forall a, geometries (heap w') a = geometries (heap w) a) /\
  passes (heap w') = passes (heap w) /\
  transforms (heap w') = transforms (heap w) /\
  (exists added, calls w' = calls w ++ added) /\
  (exists used, lockResults w' = skipn used (lockResults w)).

(** * Properties *)

(** ** Bit fields *)

Lemma lor_disjoint_add (hi lo n k : Z) :
  0 <= n -> hi = k * 2 ^ n -> 0 <= lo < 2 ^ n -> Z.lor hi lo = hi + lo.
Proof.
  intros Hn Hhi Hlo. subst hi.
  assert (Hland : Z.land (k * 2 ^ n) lo = 0).
  { apply Z.bits_inj'. intros m Hm.
    rewrite Z.land_spec, Z.bits_0.
    destruct (Z.lt_ge_cases m n) as [Hlt | Hge].
    - rewrite Z.mul_pow2_bits_low by lia. reflexivity.
    - assert (Z.testbit lo m = false) as ->.
      { destruct (Z.eq_dec lo 0) as [-> | Hne].
        - apply Z.bits_0.
        - apply Z.bits_above_log2; [lia |].
          apply Z.lt_le_trans with n; [| lia].
          apply Z.log2_lt_pow2; lia. }
      apply andb_false_r. }
  rewrite <- Z.lxor_lor by exact Hland.
  symmetry. apply Z.add_nocarry_lxor. exact Hland.
Qed.

Lemma land_ones_range (x n : Z) : 0 <= n -> 0 <= Z.land x (Z.ones n) < 2 ^ n.
Proof.
  intros Hn. rewrite Z.land_ones by lia. apply Z.mod_pos_bound. lia.
Qed.

Section SortKeyFacts.

Variables sL sP sM sG : Z.

Lemma lightQueueField_range b : 0 <= lightQueueField sL b < 2 ^ 15.
Proof. unfold lightQueueField. change 0x7fff with (Z.ones 15). apply land_ones_range. lia. Qed.

Lemma passField_range b : 0 <= passField sP b < 2 ^ 16.
Proof. unfold passField. change 0xffff with (Z.ones 16). apply land_ones_range. lia. Qed.

Lemma materialField_range b : 0 <= materialField sM b < 2 ^ 16.
Proof. unfold materialField. change 0xffff with (Z.ones 16). apply land_ones_range. lia. Qed.

Lemma geometryField_range b : 0 <= geometryField sG b < 2 ^ 16.
Proof. unfold geometryField. change 0xffff with (Z.ones 16). apply land_ones_range. lia. Qed.

(** The key as a sum of its fields. *)
Lemma sortKey_sum b :
  sortKey_ (CalculateSortKey sL sP sM sG b) =
  Z.b2z (hasPriority_ b) * 2 ^ 63 + lightQueueField sL b * 2 ^ 48 +
  passField sP b * 2 ^ 32 + materialField sM b * 2 ^ 16 + geometryField sG b.
Proof.
  pose proof (lightQueueField_range b) as HL.
  pose proof (passField_range b) as HP.
  pose proof (materialField_range b) as HM.
  pose proof (geometryField_range b) as HG.
  unfold CalculateSortKey, set_sortKey, sortKey_.
  set (L := lightQueueField sL b) in *. set (P := passField sP b) in *.
  set (M := materialField sM b) in *. set (G := geometryField sG b) in *.
  set (LQ := if hasPriority_ b then Z.lor L 0x8000 else L).
  assert (HLQ : LQ = Z.b2z (hasPriority_ b) * 2 ^ 15 + L).
  { unfold LQ. destruct (hasPriority_ b); simpl Z.b2z; [| lia].
    rewrite Z.lor_comm.
    rewrite (lor_disjoint_add 0x8000 L 15 1) by lia. lia. }
  assert (Hb : 0 <= Z.b2z (hasPriority_ b) <= 1) by (destruct (hasPriority_ b); simpl; lia).
  unfold wrap64. rewrite !Z.shiftl_mul_pow2 by lia.
  rewrite (Z.mod_small (LQ * 2 ^ 48)) by lia.
  rewrite (Z.mod_small (P * 2 ^ 32)) by lia.
  rewrite (Z.mod_small (M * 2 ^ 16)) by lia.
  rewrite (lor_disjoint_add (LQ * 2 ^ 48) (P * 2 ^ 32) 48 LQ) by lia.
  rewrite (lor_disjoint_add _ (M * 2 ^ 16) 32 (LQ * 2 ^ 16 + P)) by lia.
  rewrite (lor_disjoint_add _ G 16 ((LQ * 2 ^ 16 + P) * 2 ^ 16 + M)) by lia.
  lia.
Qed.

End SortKeyFacts.

Lemma sortKey_priority_lt (sL sP sM sG : Z) (b1 b2 : Batch) :
  hasPriority_ b1 = true -> hasPriority_ b2 = false ->
  sortKey_ (CalculateSortKey sL sP sM sG b2) < sortKey_ (CalculateSortKey sL sP sM sG b1).
Proof.
  intros H1 H2. rewrite !sortKey_sum, H1, H2. simpl Z.b2z.
  pose proof (lightQueueField_range sL b1). pose proof (passField_range sP b1).
  pose proof (materialField_range sM b1). pose proof (geometryField_range sG b1).
  pose proof (lightQueueField_range sL b2). pose proof (passField_range sP b2).
  pose proof (materialField_range sM b2). pose proof (geometryField_range sG b2).
  lia.
Qed.

(** C4.  [CalculateSortKey] packs the key as
    [priority:1][lightContext:15][pass:16][material:16][geometry:16]:
    the priority flag is bit 63, the light-queue field masked to 15 bits
    sits at bits 48-62, the pass, material and geometry fields masked to
    16 bits at bits 32-47, 16-31 and 0-15; hence the key of a batch with
    the priority flag is strictly greater than the key of a batch without
    it. *)
Theorem CalculateSortKey_layout :
  forall sL sP sM sG : Z,
  (forall b : Batch,
     let k := sortKey_ (CalculateSortKey sL sP sM sG b) in
     k = Z.b2z (hasPriority_ b) * 2 ^ 63 + lightQueueField sL b * 2 ^ 48 +
         passField sP b * 2 ^ 32 + materialField sM b * 2 ^ 16 +
         geometryField sG b /\
     0 <= k < 2 ^ 64 /\
     Z.testbit k 63 = hasPriority_ b /\
     (k / 2 ^ 48) mod 2 ^ 15 = lightQueueField sL b /\
     (k / 2 ^ 32) mod 2 ^ 16 = passField sP b /\
     (k / 2 ^ 16) mod 2 ^ 16 = materialField sM b /\
     k mod 2 ^ 16 = geometryField sG b /\
     lightQueueField sL b = (low32 (lightQueue_ b) / sL) mod 2 ^ 15 /\
     passField sP b = (low32 (pass_ b) / sP) mod 2 ^ 16 /\
     materialField sM b = (low32 (material_ b) / sM) mod 2 ^ 16 /\
     geometryField sG b = (low32 (geometry_ b) / sG) mod 2 ^ 16) /\
  (forall b1 b2 : Batch,
     hasPriority_ b1 = true -> hasPriority_ b2 = false ->
     sortKey_ (CalculateSortKey sL sP sM sG b2) <
     sortKey_ (CalculateSortKey sL sP sM sG b1)).
Proof.
  intros sL sP sM sG. split.
  - intros b k.
    pose proof (sortKey_sum sL sP sM sG b) as Hk. fold k in Hk.
    pose proof (lightQueueField_range sL b) as HL.
    pose proof (passField_range sP b) as HP.
    pose proof (materialField_range sM b) as HM.
    pose proof (geometryField_range sG b) as HG.
    assert (Hb : 0 <= Z.b2z (hasPriority_ b) <= 1) by (destruct (hasPriority_ b); simpl; lia).
    set (L := lightQueueField sL b) in *. set (P := passField sP b) in *.
    set (M := materialField sM b) in *. set (G := geometryField sG b) in *.
    set (pr := Z.b2z (hasPriority_ b)) in *.
    split; [exact Hk |]. split; [lia |].
    split.
    { rewrite Z.testbit_odd, Z.shiftr_div_pow2 by lia.
      assert (k / 2 ^ 63 = pr) as ->.
      { symmetry. apply Z.div_unique with (r := L * 2 ^ 48 + P * 2 ^ 32 + M * 2 ^ 16 + G); lia. }
      unfold pr. destruct (hasPriority_ b); reflexivity. }
    split.
    { assert (k / 2 ^ 48 = pr * 2 ^ 15 + L) as ->.
      { symmetry. apply Z.div_unique with (r := P * 2 ^ 32 + M * 2 ^ 16 + G); lia. }
      symmetry. apply Z.mod_unique with (q := pr); lia. }
    split.
    { assert (k / 2 ^ 32 = (pr * 2 ^ 15 + L) * 2 ^ 16 + P) as ->.
      { symmetry. apply Z.div_unique with (r := M * 2 ^ 16 + G); lia. }
      symmetry. apply Z.mod_unique with (q := pr * 2 ^ 15 + L); lia. }
    split.
    { assert (k / 2 ^ 16 = ((pr * 2 ^ 15 + L) * 2 ^ 16 + P) * 2 ^ 16 + M) as ->.
      { symmetry. apply Z.div_unique with (r := G); lia. }
      symmetry. apply Z.mod_unique with (q := (pr * 2 ^ 15 + L) * 2 ^ 16 + P); lia. }
    split.
    { symmetry.
      apply Z.mod_unique with (q := ((pr * 2 ^ 15 + L) * 2 ^ 16 + P) * 2 ^ 16 + M); lia. }
    unfold L, P, M, G, lightQueueField, passField, materialField, geometryField.
    change 0x7fff with (Z.ones 15). change 0xffff with (Z.ones 16).
    rewrite !Z.land_ones by lia. repeat split; reflexivity.
  - intros b1 b2 H1 H2. now apply sortKey_priority_lt.
Qed.

(** ** Comparison functions are strict weak orders *)

Ltac cmp_cases :=
  rewrite ?Z.gtb_ltb in *;
  repeat match goal with
  | H : context [?a =? ?b] |- _ => destruct (Z.eqb_spec a b)
  | |- context [?a =? ?b] => destruct (Z.eqb_spec a b)
  | H : context [?a <? ?b] |- _ => destruct (Z.ltb_spec a b)
  | |- context [?a <? ?b] => destruct (Z.ltb_spec a b)
  end;
  try discriminate; try reflexivity; try lia.

Lemma CompareBatchesFrontToBack_swo : StrictWeakOrder CompareBatchesFrontToBack.
Proof.
  unfold StrictWeakOrder, CompareBatchesFrontToBack.
  repeat split; intros; cmp_cases.
Qed.

Lemma CompareBatchesBackToFront_swo : StrictWeakOrder CompareBatchesBackToFront.
Proof.
  unfold StrictWeakOrder, CompareBatchesBackToFront.
  repeat split; intros; cmp_cases.
Qed.

Lemma CompareInstancesFrontToBack_swo : StrictWeakOrder CompareInstancesFrontToBack.
Proof.
  unfold StrictWeakOrder, CompareInstancesFrontToBack.
  repeat split; intros; cmp_cases.
Qed.

Lemma CompareBatchGroupsFrontToBack_swo : StrictWeakOrder CompareBatchGroupsFrontToBack.
Proof.
  unfold StrictWeakOrder, CompareBatchGroupsFrontToBack.
  repeat split; intros; cmp_cases.
Qed.

Lemma swo_pullback {A B : Type} (f : A -> B) (cmp : B -> B -> bool) :
  StrictWeakOrder cmp -> StrictWeakOrder (fun x y => cmp (f x) (f y)).
Proof.
  intros (Hirr & Htr & Hneg). repeat split; intros.
  - apply Hirr.
  - eapply Htr; eassumption.
  - eapply Hneg; eassumption.
Qed.

Lemma swo_asym {A : Type} (cmp : A -> A -> bool) :
  StrictWeakOrder cmp -> forall a b, cmp a b = true -> cmp b a = false.
Proof.
  intros (Hirr & Htr & _) a b Hab.
  destruct (cmp b a) eqn:Hba; [| reflexivity].
  rewrite <- (Hirr a). symmetry. eapply Htr; eassumption.
Qed.

(** ** Sorted lists *)

Lemma Sorted_adjacentPairs {A : Type} (R : A -> A -> Prop) (l : list A) :
  Sorted R l -> adjacentPairs R l.
Proof.
  induction 1 as [| x l Hs IH Hhd]; intros i a b Ha Hb.
  - destruct i; discriminate.
  - destruct i as [| i]; simpl in Ha, Hb.
    + injection Ha as <-. destruct l as [| y l']; [discriminate |].
      simpl in Hb. injection Hb as <-. now inversion Hhd.
    + eapply IH; eassumption.
Qed.

Lemma StronglySorted_pairs {A : Type} (R : A -> A -> Prop) (l : list A) :
  StronglySorted R l ->
  forall i j a b, (i < j)%nat ->
    nth_error l i = Some a -> nth_error l j = Some b -> R a b.
Proof.
  induction 1 as [| x l Hs IH Hall]; intros i j a b Hij Ha Hb.
  - destruct i; discriminate.
  - destruct j as [| j]; [lia |]. simpl in Hb.
    destruct i as [| i]; simpl in Ha.
    + injection Ha as <-. rewrite Forall_forall in Hall.
      apply Hall. eapply nth_error_In; eassumption.
    + apply (IH i j); [lia | assumption | assumption].
Qed.

Lemma adjacentPairs_map {A B : Type} (f : A -> B) (R : B -> B -> Prop) (l : list A) :
  adjacentPairs (fun x y => R (f x) (f y)) l -> adjacentPairs R (map f l).
Proof.
  intros H i a b Ha Hb.
  rewrite nth_error_map in Ha, Hb.
  destruct (nth_error l i) as [x |] eqn:Hx; [| discriminate].
  destruct (nth_error l (S i)) as [y |] eqn:Hy; [| discriminate].
  simpl in Ha, Hb. injection Ha as <-. injection Hb as <-.
  eapply H; eassumption.
Qed.

Lemma adjacentPairs_impl {A : Type} (R R' : A -> A -> Prop) (l : list A) :
  (forall a b, R a b -> R' a b) -> adjacentPairs R l -> adjacentPairs R' l.
Proof. intros HR H i a b Ha Hb. apply HR. eapply H; eassumption. Qed.

(** ** Insertion sort meets the contract *)

Lemma insertInto_perm {A : Type} (cmp : A -> A -> bool) (x : A) (l : list A) :
  Permutation (x :: l) (insertInto cmp x l).
Proof.
  induction l as [| y l IH]; simpl.
  - apply Permutation_refl.
  - destruct (cmp x y).
    + apply Permutation_refl.
    + eapply perm_trans; [apply perm_swap |]. now apply perm_skip.
Qed.

Lemma insertInto_sorted {A : Type} (cmp : A -> A -> bool) (x : A) (l : list A) :
  StrictWeakOrder cmp ->
  Sorted (fun a b => cmp b a = false) l ->
  Sorted (fun a b => cmp b a = false) (insertInto cmp x l).
Proof.
  intros Hswo. induction 1 as [| y l Hs IH Hhd]; simpl.
  - repeat constructor.
  - destruct (cmp x y) eqn:Hxy.
    + constructor.
      * now constructor.
      * constructor. now apply swo_asym.
    + constructor; [exact IH |].
      destruct l as [| z l']; simpl.
      * now constructor.
      * destruct (cmp x z); constructor; [assumption | now inversion Hhd].
Qed.

Lemma InsertionSort_contract : SortContract InsertionSort.
Proof.
  intros A cmp l Hswo. unfold InsertionSort. induction l as [| x l [IHp IHs]]; simpl.
  - split; constructor.
  - split.
    + eapply perm_trans; [apply perm_skip, IHp | apply insertInto_perm].
    + now apply insertInto_sorted.
Qed.

(** ** Consequences of the contract *)

Section SortFacts.

Variable Sort : forall A : Type, (A -> A -> bool) -> list A -> list A.
Hypothesis Sort_ok : SortContract Sort.

Lemma Sort_perm {A : Type} (cmp : A -> A -> bool) (l : list A) :
  StrictWeakOrder cmp -> Permutation l (Sort A cmp l).
Proof. intros H. now apply Sort_ok. Qed.

Lemma Sort_adjacent {A : Type} (cmp : A -> A -> bool) (l : list A) :
  StrictWeakOrder cmp ->
  adjacentPairs (fun x y => cmp y x = false) (Sort A cmp l).
Proof. intros H. apply Sorted_adjacentPairs. now apply Sort_ok. Qed.

End SortFacts.

(** ** The two sort policies *)

Section SortPolicies.

Variable Sort : forall A : Type, (A -> A -> bool) -> list A -> list A.
Hypothesis Sort_ok : SortContract Sort.

Lemma Sort_pairs {A : Type} (cmp : A -> A -> bool) (l : list A) :
  StrictWeakOrder cmp ->
  forall i j a b, (i < j)%nat ->
    nth_error (Sort A cmp l) i = Some a -> nth_error (Sort A cmp l) j = Some b ->
    cmp b a = false.
Proof.
  intros Hswo.
  apply (StronglySorted_pairs (fun x y => cmp y x = false)).
  apply Sorted_StronglySorted.
  - intros x y z Hxy Hyz. destruct Hswo as (_ & _ & Hneg).
    exact (Hneg z y x Hyz Hxy).
  - now apply Sort_ok.
Qed.

Lemma sortInstances_keys (m : Map) : Map_keys (sortInstances Sort m) = Map_keys m.
Proof.
  unfold Map_keys, sortInstances. rewrite map_map. reflexivity.
Qed.

Lemma sortInstances_sorted (m : Map) :
  Forall2 instancesSorted m (sortInstances Sort m).
Proof.
  induction m as [| [k g] m IH]; simpl; constructor; [| exact IH].
  unfold instancesSorted; simpl. repeat split.
  - apply Sort_perm; [exact Sort_ok | apply CompareInstancesFrontToBack_swo].
  - eapply adjacentPairs_impl;
      [| apply Sort_adjacent; [exact Sort_ok | apply CompareInstancesFrontToBack_swo]].
    intros a b H. unfold CompareInstancesFrontToBack in H.
    unfold ascendingDistance. cmp_cases.
Qed.

Lemma groups_nearestFirst (m : Map) :
  adjacentPairs (nearestFirst m)
    (Sort BatchGroupKey
       (fun k1 k2 => CompareBatchGroupsFrontToBack (groupAt m k1) (groupAt m k2))
       (Map_keys m)).
Proof.
  eapply adjacentPairs_impl;
    [| apply Sort_adjacent;
       [exact Sort_ok
       | apply (swo_pullback (groupAt m)), CompareBatchGroupsFrontToBack_swo]].
  intros k1 k2 H i1 i2 H1 H2. simpl in H.
  unfold CompareBatchGroupsFrontToBack, firstDistance in H.
  destruct (g_instances_ (groupAt m k1)) as [| x1 l1]; [discriminate |].
  destruct (g_instances_ (groupAt m k2)) as [| x2 l2]; [discriminate |].
  simpl in H1, H2. injection H1 as <-. injection H2 as <-. cmp_cases.
Qed.

Lemma batches_frontToBack (q : BatchQueue) (l : list nat) :
  adjacentPairs frontToBackOrder
    (map (batchAt q)
       (Sort nat (fun i j => CompareBatchesFrontToBack (batchAt q i) (batchAt q j)) l)).
Proof.
  apply adjacentPairs_map.
  eapply adjacentPairs_impl;
    [| apply Sort_adjacent;
       [exact Sort_ok
       | apply (swo_pullback (batchAt q)), CompareBatchesFrontToBack_swo]].
  intros i j H. simpl in H. unfold CompareBatchesFrontToBack in H.
  unfold frontToBackOrder. cmp_cases.
Qed.

Lemma batches_backToFront (q : BatchQueue) (l : list nat) :
  adjacentPairs backToFrontOrder
    (map (batchAt q)
       (Sort nat (fun i j => CompareBatchesBackToFront (batchAt q i) (batchAt q j)) l)).
Proof.
  apply adjacentPairs_map.
  eapply adjacentPairs_impl;
    [| apply Sort_adjacent;
       [exact Sort_ok
       | apply (swo_pullback (batchAt q)), CompareBatchesBackToFront_swo]].
  intros i j H. simpl in H. unfold CompareBatchesBackToFront in H.
  unfold backToFrontOrder. cmp_cases.
Qed.

End SortPolicies.

(** C5.  After [SortFrontToBack], each of the two sorted loose lists (the
    priority batches, the others) holds exactly its batches, every two
    neighbours in descending sort-key order with ties in ascending distance;
    every group keeps its key and shared fields and has its instances
    rearranged into ascending distance; and each sorted group list holds the
    map's groups in ascending distance of their first instance after the
    sort. *)
Theorem SortFrontToBack_order :
  forall Sort : (forall A : Type, (A -> A -> bool) -> list A -> list A),
  SortContract Sort ->
  forall q : BatchQueue,
  let q' := SortFrontToBack Sort q in
  let all := seq 0 (length (batches_ q)) in
  batches_ q' = batches_ q /\
  adjacentPairs frontToBackOrder (map (batchAt q') (sortedPriorityBatches_ q')) /\
  adjacentPairs frontToBackOrder (map (batchAt q') (sortedBatches_ q')) /\
  Permutation (filter (fun i => hasPriority_ (batchAt q i)) all)
    (sortedPriorityBatches_ q') /\
  Permutation (filter (fun i => negb (hasPriority_ (batchAt q i))) all)
    (sortedBatches_ q') /\
  Forall2 instancesSorted (priorityBatchGroups_ q) (priorityBatchGroups_ q') /\
  Forall2 instancesSorted (batchGroups_ q) (batchGroups_ q') /\
  adjacentPairs (nearestFirst (priorityBatchGroups_ q')) (sortedPriorityBatchGroups_ q') /\
  adjacentPairs (nearestFirst (batchGroups_ q')) (sortedBatchGroups_ q') /\
  Permutation (Map_keys (priorityBatchGroups_ q')) (sortedPriorityBatchGroups_ q') /\
  Permutation (Map_keys (batchGroups_ q')) (sortedBatchGroups_ q').
Proof.
  intros Sort Hsort q q' all.
  assert (Hcmp : StrictWeakOrder
            (fun i j => CompareBatchesFrontToBack (batchAt q i) (batchAt q j)))
    by apply (swo_pullback (batchAt q)), CompareBatchesFrontToBack_swo.
  assert (Hgrp : forall m, StrictWeakOrder
            (fun k1 k2 => CompareBatchGroupsFrontToBack (groupAt m k1) (groupAt m k2)))
    by (intros m; apply (swo_pullback (groupAt m)), CompareBatchGroupsFrontToBack_swo).
  split; [reflexivity |].
  split; [apply (batches_frontToBack Sort Hsort q) |].
  split; [apply (batches_frontToBack Sort Hsort q) |].
  split; [apply Sort_perm; assumption |].
  split; [apply Sort_perm; assumption |].
  split; [apply sortInstances_sorted; assumption |].
  split; [apply sortInstances_sorted; assumption |].
  split; [apply groups_nearestFirst; assumption |].
  split; [apply groups_nearestFirst; assumption |].
  split; apply Sort_perm; auto.
Qed.

(** C6.  After [SortBackToFront], the sorted loose output holds every loose
    batch once, every two neighbours in descending distance order with ties
    in descending sort-key order; the group maps are untouched, so every
    group's instances are in insertion order, and the sorted group lists
    list the maps' groups in map order. *)
Theorem SortBackToFront_order :
  forall Sort : (forall A : Type, (A -> A -> bool) -> list A -> list A),
  SortContract Sort ->
  forall q : BatchQueue,
  let q' := SortBackToFront Sort q in
  batches_ q' = batches_ q /\
  sortedPriorityBatches_ q' = [] /\
  adjacentPairs backToFrontOrder (map (batchAt q') (sortedBatches_ q')) /\
  Permutation (seq 0 (length (batches_ q))) (sortedBatches_ q') /\
  priorityBatchGroups_ q' = priorityBatchGroups_ q /\
  batchGroups_ q' = batchGroups_ q /\
  sortedPriorityBatchGroups_ q' = Map_keys (priorityBatchGroups_ q) /\
  sortedBatchGroups_ q' = Map_keys (batchGroups_ q).
Proof.
  intros Sort Hsort q q'.
  split; [reflexivity |]. split; [reflexivity |].
  split; [apply (batches_backToFront Sort Hsort q) |].
  split.
  { apply Sort_perm; [assumption |].
    apply (swo_pullback (batchAt q)), CompareBatchesBackToFront_swo. }
  repeat split; reflexivity.
Qed.

(** ** Priority in the submission order *)

Lemma batchAt_In (q : BatchQueue) (i : nat) :
  In i (seq 0 (length (batches_ q))) -> In (batchAt q i) (batches_ q).
Proof.
  rewrite in_seq. intros [_ Hi]. apply nth_In. simpl in Hi. exact Hi.
Qed.

Lemma nth_error_map_inv {A B : Type} (f : A -> B) (l : list A) (i : nat) (b : B) :
  nth_error (map f l) i = Some b ->
  exists a, nth_error l i = Some a /\ b = f a.
Proof.
  rewrite nth_error_map. destruct (nth_error l i) as [a |]; [| discriminate].
  simpl. intros H. injection H as <-. now exists a.
Qed.

Section PriorityOrder.

Variables sL sP sM sG : Z.
Variable Sort : forall A : Type, (A -> A -> bool) -> list A -> list A.
Hypothesis Sort_ok : SortContract Sort.

Lemma frontToBack_priorityFirst (q : BatchQueue) :
  priorityFirst (looseSubmissionOrder (SortFrontToBack Sort q)).
Proof.
  assert (Hcmp : StrictWeakOrder
            (fun i j => CompareBatchesFrontToBack (batchAt q i) (batchAt q j)))
    by apply (swo_pullback (batchAt q)), CompareBatchesFrontToBack_swo.
  unfold looseSubmissionOrder. simpl.
  set (cmp := fun i j => CompareBatchesFrontToBack (batchAt q i) (batchAt q j)) in *.
  set (all := seq 0 (length (batches_ q))).
  set (P := Sort nat cmp (filter (fun i => hasPriority_ (batchAt q i)) all)).
  set (N := Sort nat cmp (filter (fun i => negb (hasPriority_ (batchAt q i))) all)).
  assert (HP : forall x, In x P -> hasPriority_ (batchAt q x) = true).
  { intros x Hx.
    apply (Permutation_in x (Permutation_sym (Sort_perm Sort Sort_ok cmp _ Hcmp))) in Hx.
    apply filter_In in Hx. tauto. }
  assert (HN : forall x, In x N -> hasPriority_ (batchAt q x) = false).
  { intros x Hx.
    apply (Permutation_in x (Permutation_sym (Sort_perm Sort Sort_ok cmp _ Hcmp))) in Hx.
    apply filter_In in Hx. destruct Hx as [_ Hx]. now apply negb_true_iff in Hx. }
  intros i j a b Ha Hb Hpa Hpb.
  apply nth_error_map_inv in Ha as (x & Hx & ->).
  apply nth_error_map_inv in Hb as (y & Hy & ->).
  unfold batchAt in Hpa, Hpb. simpl in Hpa, Hpb. fold (batchAt q x) in Hpa. fold (batchAt q y) in Hpb.
  destruct (Nat.lt_ge_cases i (length P)) as [Hi | Hi].
  - destruct (Nat.lt_ge_cases j (length P)) as [Hj | Hj]; [| lia].
    rewrite nth_error_app1 in Hy by exact Hj.
    apply nth_error_In in Hy. apply HP in Hy. congruence.
  - rewrite nth_error_app2 in Hx by exact Hi.
    apply nth_error_In in Hx. apply HN in Hx. congruence.
Qed.

Lemma backToFront_priority (q : BatchQueue) :
  Forall (sortKeyComputed sL sP sM sG) (batches_ q) ->
  forall i j a b, (i < j)%nat ->
    nth_error (looseSubmissionOrder (SortBackToFront Sort q)) i = Some a ->
    nth_error (looseSubmissionOrder (SortBackToFront Sort q)) j = Some b ->
    hasPriority_ a = false -> hasPriority_ b = true ->
    distance_ b < distance_ a.
Proof.
  intros Hkeys i j a b Hij Ha Hb Hpa Hpb.
  assert (Hcmp : StrictWeakOrder
            (fun i j => CompareBatchesBackToFront (batchAt q i) (batchAt q j)))
    by apply (swo_pullback (batchAt q)), CompareBatchesBackToFront_swo.
  unfold looseSubmissionOrder in Ha, Hb. simpl in Ha, Hb.
  apply nth_error_map_inv in Ha as (x & Hx & ->).
  apply nth_error_map_inv in Hb as (y & Hy & ->).
  unfold batchAt in Hpa, Hpb |- *. simpl in Hpa, Hpb |- *.
  fold (batchAt q x) in *. fold (batchAt q y) in *.
  pose proof (Sort_pairs Sort Sort_ok _ _ Hcmp i j x y Hij Hx Hy) as Hord.
  simpl in Hord.
  assert (Hin : forall z k, nth_error (Sort nat (fun i j =>
              CompareBatchesBackToFront (batchAt q i) (batchAt q j))
              (seq 0 (length (batches_ q)))) k = Some z ->
            sortKeyComputed sL sP sM sG (batchAt q z)).
  { intros z k Hz. apply nth_error_In in Hz.
    apply (Permutation_in z (Permutation_sym (Sort_perm Sort Sort_ok _ _ Hcmp))) in Hz.
    rewrite Forall_forall in Hkeys. apply Hkeys. now apply batchAt_In. }
  pose proof (Hin x i Hx) as Kx. pose proof (Hin y j Hy) as Ky.
  pose proof (sortKey_priority_lt sL sP sM sG _ _ Hpb Hpa) as Hlt.
  unfold sortKeyComputed in Kx, Ky. rewrite <- Kx, <- Ky in Hlt.
  unfold CompareBatchesBackToFront in Hord. cmp_cases.
Qed.

End PriorityOrder.

(** C1 (amended).  With the sort keys computed: after [SortFrontToBack]
    every loose batch with the priority flag is submitted strictly before
    every loose batch without it.  After [SortBackToFront] the loose batches
    are submitted in descending distance order, whatever their flags; a
    batch without the flag is submitted before a batch with it only when it
    is strictly farther, and among batches at one distance those with the
    flag come first. *)
Theorem priority_submission_order :
  forall (sL sP sM sG : Z)
         (Sort : forall A : Type, (A -> A -> bool) -> list A -> list A),
  SortContract Sort ->
  forall q : BatchQueue,
  Forall (sortKeyComputed sL sP sM sG) (batches_ q) ->
  priorityFirst (looseSubmissionOrder (SortFrontToBack Sort q)) /\
  adjacentPairs backToFrontOrder (looseSubmissionOrder (SortBackToFront Sort q)) /\
  (forall i j a b, (i < j)%nat ->
     nth_error (looseSubmissionOrder (SortBackToFront Sort q)) i = Some a ->
     nth_error (looseSubmissionOrder (SortBackToFront Sort q)) j = Some b ->
     hasPriority_ a = false -> hasPriority_ b = true ->
     distance_ b < distance_ a) /\
  (forall i j a b,
     nth_error (looseSubmissionOrder (SortBackToFront Sort q)) i = Some a ->
     nth_error (looseSubmissionOrder (SortBackToFront Sort q)) j = Some b ->
     hasPriority_ a = true -> hasPriority_ b = false ->
     distance_ a = distance_ b -> (i < j)%nat).
Proof.
  intros sL sP sM sG Sort Hsort q Hkeys.
  split; [now apply frontToBack_priorityFirst |].
  split; [apply (batches_backToFront Sort Hsort q) |].
  split; [now apply (backToFront_priority sL sP sM sG Sort Hsort q) |].
  intros i j a b Ha Hb Hpa Hpb Hd.
  destruct (Nat.lt_total i j) as [Hlt | [Heq | Hgt]]; [exact Hlt | |].
  - subst j. rewrite Ha in Hb. injection Hb as <-. congruence.
  - pose proof (backToFront_priority sL sP sM sG Sort Hsort q Hkeys
                  j i b a Hgt Hb Ha Hpb Hpa). lia.
Qed.

Lemma twoLooseQueue_keys :
  Forall (sortKeyComputed 64 64 64 64) (batches_ twoLooseQueue).
Proof. repeat constructor. Qed.

Lemma sampleQueue_keys :
  Forall (sortKeyComputed 64 64 64 64) (batches_ sampleQueue).
Proof. repeat constructor. Qed.

(** The amended C1 applied to the sample queue under insertion sort. *)
Lemma priority_submission_order_witness :
  SortContract InsertionSort /\
  Forall (sortKeyComputed 64 64 64 64) (batches_ sampleQueue) /\
  priorityFirst (looseSubmissionOrder (SortFrontToBack InsertionSort sampleQueue)).
Proof.
  split; [exact InsertionSort_contract |].
  split; [exact sampleQueue_keys |].
  exact (proj1 (priority_submission_order 64 64 64 64 InsertionSort
                  InsertionSort_contract sampleQueue sampleQueue_keys)).
Defined.

(** C1 as stated fails for [SortBackToFront]: in [twoLooseQueue], whose
    sort keys are computed, the far batch without the priority flag is
    submitted first and the near batch with the flag second, under
    insertion sort and under every sort that meets the contract. *)
Lemma priority_first_counterexample :
  Forall (sortKeyComputed 64 64 64 64) (batches_ twoLooseQueue) /\
  looseSubmissionOrder (SortBackToFront InsertionSort twoLooseQueue) =
    [farPlain; nearPriority] /\
  hasPriority_ farPlain = false /\ hasPriority_ nearPriority = true /\
  (forall Sort : (forall A : Type, (A -> A -> bool) -> list A -> list A),
     SortContract Sort ->
     ~ priorityFirst (looseSubmissionOrder (SortBackToFront Sort twoLooseQueue))).
Proof.
  split; [exact twoLooseQueue_keys |].
  split; [reflexivity |]. split; [reflexivity |]. split; [reflexivity |].
  intros Sort Hsort Hfirst.
  set (cmp := fun i j => CompareBatchesBackToFront (batchAt twoLooseQueue i)
                           (batchAt twoLooseQueue j)).
  assert (Hswo : StrictWeakOrder cmp)
    by apply (swo_pullback (batchAt twoLooseQueue)), CompareBatchesBackToFront_swo.
  destruct (Hsort nat cmp [0%nat; 1%nat] Hswo) as [Hperm Hsorted].
  assert (Hres : Sort nat cmp [0%nat; 1%nat] = [0%nat; 1%nat]).
  { apply Permutation_length_2_inv in Hperm. destruct Hperm as [H | H]; [exact H |].
    rewrite H in Hsorted. exfalso.
    inversion Hsorted as [| ? ? _ Hhd]. inversion Hhd as [| ? ? Hc].
    vm_compute in Hc. discriminate Hc. }
  change (looseSubmissionOrder (SortBackToFront Sort twoLooseQueue))
    with (map (batchAt twoLooseQueue) (Sort nat cmp [0%nat; 1%nat])) in Hfirst.
  rewrite Hres in Hfirst.
  specialize (Hfirst 1%nat 0%nat nearPriority farPlain eq_refl eq_refl eq_refl eq_refl).
  lia.
Qed.

(** C5 on the sample queue under insertion sort; the group of the three
    instances inserted at distances 5, 1, 3 ends in the order 1, 3, 5. *)
Lemma SortFrontToBack_order_witness :
  SortContract InsertionSort /\
  adjacentPairs frontToBackOrder
    (map (batchAt (SortFrontToBack InsertionSort sampleQueue))
       (sortedBatches_ (SortFrontToBack InsertionSort sampleQueue))) /\
  Forall2 instancesSorted (batchGroups_ sampleQueue)
    (batchGroups_ (SortFrontToBack InsertionSort sampleQueue)) /\
  map (fun kg => map i_distance_ (g_instances_ (snd kg)))
    (batchGroups_ (SortFrontToBack InsertionSort sampleQueue)) = [[1; 3; 5]].
Proof.
  pose proof (SortFrontToBack_order InsertionSort InsertionSort_contract sampleQueue) as H.
  split; [exact InsertionSort_contract |].
  split; [exact (proj1 (proj2 (proj2 H))) |].
  split; [exact (proj1 (proj2 (proj2 (proj2 (proj2 (proj2 (proj2 H))))))) |].
  reflexivity.
Defined.

(** C6 on the sample queue under insertion sort; the same group keeps the
    insertion order 5, 1, 3. *)
Lemma SortBackToFront_order_witness :
  SortContract InsertionSort /\
  adjacentPairs backToFrontOrder
    (map (batchAt (SortBackToFront InsertionSort sampleQueue))
       (sortedBatches_ (SortBackToFront InsertionSort sampleQueue))) /\
  batchGroups_ (SortBackToFront InsertionSort sampleQueue) = batchGroups_ sampleQueue /\
  map (fun kg => map i_distance_ (g_instances_ (snd kg)))
    (batchGroups_ (SortBackToFront InsertionSort sampleQueue)) = [[5; 1; 3]].
Proof.
  pose proof (SortBackToFront_order InsertionSort InsertionSort_contract sampleQueue) as H.
  split; [exact InsertionSort_contract |].
  split; [exact (proj1 (proj2 (proj2 H))) |].
  split; [exact (proj1 (proj2 (proj2 (proj2 (proj2 (proj2 H)))))) |].
  reflexivity.
Defined.

(** ** The group map *)

Lemma BatchGroupKey_eqb_spec (a b : BatchGroupKey) :
  reflect (a = b) (BatchGroupKey_eqb a b).
Proof.
  destruct a as [a1 a2 a3 a4], b as [b1 b2 b3 b4].
  unfold BatchGroupKey_eqb; simpl.
  destruct (Z.eqb_spec a1 b1); [| constructor; congruence].
  destruct (Z.eqb_spec a2 b2); [| constructor; congruence].
  destruct (Z.eqb_spec a3 b3); [| constructor; congruence].
  destruct (Z.eqb_spec a4 b4); constructor; congruence.
Qed.

Lemma Map_Find_Insert (k k' : BatchGroupKey) (g : BatchGroup) (m : Map) :
  Map_Find k' (Map_Insert k g m) =
  if BatchGroupKey_eqb k' k then Some g else Map_Find k' m.
Proof.
  induction m as [| [k1 g1] m IH]; simpl.
  - reflexivity.
  - destruct (BatchGroupKey_eqb_spec k k1) as [<- | Hne]; simpl.
    + destruct (BatchGroupKey_eqb k' k); reflexivity.
    + destruct (BatchGroupKey_ltb k k1); simpl.
      * reflexivity.
      * rewrite IH.
        destruct (BatchGroupKey_eqb_spec k' k1) as [-> | Hne1]; [| reflexivity].
        destruct (BatchGroupKey_eqb_spec k1 k); [congruence | reflexivity].
Qed.

Lemma Map_Find_Update (k k' : BatchGroupKey) (f : BatchGroup -> BatchGroup) (m : Map) :
  Map_Find k' (Map_Update k f m) =
  if BatchGroupKey_eqb k' k then option_map f (Map_Find k m) else Map_Find k' m.
Proof.
  induction m as [| [k1 g1] m IH]; simpl.
  - destruct (BatchGroupKey_eqb k' k); reflexivity.
  - destruct (BatchGroupKey_eqb_spec k k1) as [<- | Hne]; simpl.
    + destruct (BatchGroupKey_eqb k' k); reflexivity.
    + rewrite IH.
      destruct (BatchGroupKey_eqb_spec k' k1) as [-> | Hne1]; [| reflexivity].
      destruct (BatchGroupKey_eqb_spec k1 k); [congruence | reflexivity].
Qed.

Lemma Map_Find_None (k : BatchGroupKey) (m : Map) :
  Map_Find k m = None -> ~ In k (Map_keys m).
Proof.
  induction m as [| [k1 g1] m IH]; simpl.
  - tauto.
  - destruct (BatchGroupKey_eqb_spec k k1); [discriminate |].
    intros H [H1 | H1]; [congruence | now apply IH].
Qed.

Lemma Map_Insert_keys (k : BatchGroupKey) (g : BatchGroup) (m : Map) :
  ~ In k (Map_keys m) -> Permutation (k :: Map_keys m) (Map_keys (Map_Insert k g m)).
Proof.
  induction m as [| [k1 g1] m IH]; simpl; intros Hnin.
  - apply Permutation_refl.
  - destruct (BatchGroupKey_eqb_spec k k1) as [<- | Hne]; [tauto |].
    destruct (BatchGroupKey_ltb k k1); simpl.
    + apply Permutation_refl.
    + eapply perm_trans; [apply perm_swap |]. apply perm_skip. apply IH. tauto.
Qed.

Lemma Map_Update_keys (k : BatchGroupKey) (f : BatchGroup -> BatchGroup) (m : Map) :
  Map_keys (Map_Update k f m) = Map_keys m.
Proof.
  induction m as [| [k1 g1] m IH]; simpl; [reflexivity |].
  destruct (BatchGroupKey_eqb k k1); simpl; [reflexivity | now rewrite IH].
Qed.

Lemma Map_Find_In (k : BatchGroupKey) (g : BatchGroup) (m : Map) :
  NoDup (Map_keys m) -> (In (k, g) m <-> Map_Find k m = Some g).
Proof.
  induction m as [| [k1 g1] m IH]; simpl; intros Hnd.
  - split; [tauto | discriminate].
  - inversion Hnd as [| ? ? Hnin Hnd']; subst.
    destruct (BatchGroupKey_eqb_spec k k1) as [-> | Hne].
    + split.
      * intros [H | H]; [congruence |].
        exfalso. apply Hnin. change k1 with (fst (k1, g)). now apply in_map.
      * intros H. left. congruence.
    + rewrite <- (IH Hnd'). split.
      * intros [H | H]; [congruence | exact H].
      * now right.
Qed.

Lemma addToGroups_Find (batch : Batch) (key : BatchGroupKey) (m : Map) :
  Map_Find key (addToGroups batch m) =
  if BatchGroupKey_eqb key (keyOf batch) then
    Some match Map_Find key m with
         | None => newGroupOf batch
         | Some g => pushInstance (instanceOf batch) g
         end
  else Map_Find key m.
Proof.
  unfold addToGroups.
  destruct (Map_Find (keyOf batch) m) as [g |] eqn:Hfind.
  - rewrite Map_Find_Update.
    destruct (BatchGroupKey_eqb_spec key (keyOf batch)) as [-> | Hne]; [| reflexivity].
    rewrite Hfind. reflexivity.
  - rewrite Map_Find_Insert.
    destruct (BatchGroupKey_eqb_spec key (keyOf batch)) as [-> | Hne]; [| reflexivity].
    rewrite Hfind. reflexivity.
Qed.

Lemma addToGroups_NoDup (batch : Batch) (m : Map) :
  NoDup (Map_keys m) -> NoDup (Map_keys (addToGroups batch m)).
Proof.
  intros Hnd. unfold addToGroups.
  destruct (Map_Find (keyOf batch) m) as [g |] eqn:Hfind.
  - now rewrite Map_Update_keys.
  - apply Map_Find_None in Hfind.
    eapply Permutation_NoDup; [apply Map_Insert_keys; exact Hfind |].
    now constructor.
Qed.

Lemma groupFrom_snoc (bs : list Batch) (b : Batch) :
  groupFrom (bs ++ [b]) =
  Some match groupFrom bs with
       | None => newGroupOf b
       | Some g => pushInstance (instanceOf b) g
       end.
Proof.
  destruct bs as [| b0 bs]; simpl; [reflexivity |].
  unfold pushInstance, set_instances; simpl.
  rewrite map_app. reflexivity.
Qed.

(** ** Collecting batches *)

Section CollectFacts.

Variable GEOM_STATIC : Z.

Lemma AddBatches_snoc (calls : list (Batch * bool)) (c : Batch * bool) (q : BatchQueue) :
  AddBatches GEOM_STATIC (calls ++ [c]) q =
  AddBatch GEOM_STATIC (fst c) (snd c) (AddBatches GEOM_STATIC calls q).
Proof. unfold AddBatches. rewrite fold_left_app. reflexivity. Qed.

Lemma looseBatches_snoc (calls : list (Batch * bool)) (c : Batch * bool) :
  looseBatches GEOM_STATIC (calls ++ [c]) =
  looseBatches GEOM_STATIC calls ++
  (if notInstanceable GEOM_STATIC (fst c) (snd c) then [fst c] else []).
Proof.
  unfold looseBatches. rewrite filter_app, map_app. simpl.
  destruct (notInstanceable GEOM_STATIC (fst c) (snd c)); reflexivity.
Qed.

Lemma groupedBatches_snoc (p : bool) (key : BatchGroupKey)
    (calls : list (Batch * bool)) (c : Batch * bool) :
  groupedBatches GEOM_STATIC p key (calls ++ [c]) =
  groupedBatches GEOM_STATIC p key calls ++
  (if negb (notInstanceable GEOM_STATIC (fst c) (snd c)) &&
      Bool.eqb (hasPriority_ (fst c)) p &&
      BatchGroupKey_eqb (keyOf (fst c)) key
   then [fst c] else []).
Proof.
  unfold groupedBatches. rewrite filter_app, map_app. simpl.
  destruct (negb (notInstanceable GEOM_STATIC (fst c) (snd c)) &&
            Bool.eqb (hasPriority_ (fst c)) p &&
            BatchGroupKey_eqb (keyOf (fst c)) key); reflexivity.
Qed.

Lemma groupedBatches_skip (p : bool) (key : BatchGroupKey)
    (calls : list (Batch * bool)) (c : Batch * bool) :
  notInstanceable GEOM_STATIC (fst c) (snd c) = true \/ hasPriority_ (fst c) <> p ->
  groupedBatches GEOM_STATIC p key (calls ++ [c]) =
  groupedBatches GEOM_STATIC p key calls.
Proof.
  intros H. rewrite groupedBatches_snoc.
  assert (negb (notInstanceable GEOM_STATIC (fst c) (snd c)) &&
          Bool.eqb (hasPriority_ (fst c)) p = false) as ->.
  { destruct H as [-> | H]; [reflexivity |].
    apply andb_false_iff. right. apply eqb_false_iff. exact H. }
  simpl. apply app_nil_r.
Qed.

Lemma groupedBatches_step (p : bool) (calls : list (Batch * bool))
    (c : Batch * bool) (m : Map) :
  (forall key, Map_Find key m = groupFrom (groupedBatches GEOM_STATIC p key calls)) ->
  notInstanceable GEOM_STATIC (fst c) (snd c) = false -> hasPriority_ (fst c) = p ->
  forall key,
    Map_Find key (addToGroups (fst c) m) =
    groupFrom (groupedBatches GEOM_STATIC p key (calls ++ [c])).
Proof.
  intros IH Hni Hp key.
  rewrite addToGroups_Find, groupedBatches_snoc, Hni, Hp, eqb_reflx. simpl.
  destruct (BatchGroupKey_eqb_spec key (keyOf (fst c))) as [-> | Hne].
  - destruct (BatchGroupKey_eqb_spec (keyOf (fst c)) (keyOf (fst c))); [| congruence].
    rewrite groupFrom_snoc, IH. reflexivity.
  - destruct (BatchGroupKey_eqb_spec (keyOf (fst c)) key); [congruence |].
    rewrite app_nil_r. apply IH.
Qed.

End CollectFacts.

(** C7.  A sequence of [AddBatch] calls into a cleared queue partitions
    the batches: the loose list is exactly the non-instanceable batches
    (no-instancing forced, geometry type not static, override view set, or
    shader data attached), each once, in submission order; each map has
    one group per key, and the group of a key in the priority (or the
    other) map is the one seeded by the first instanceable batch of that
    key and flag, holding one (transform, distance) entry per such batch
    in submission order, and nothing else. *)
Theorem AddBatch_partition :
  forall (GEOM_STATIC : Z) (calls : list (Batch * bool)) (q0 : BatchQueue),
  let q := AddBatches GEOM_STATIC calls (Clear q0) in
  batches_ q = looseBatches GEOM_STATIC calls /\
  (forall key, Map_Find key (priorityBatchGroups_ q) =
               groupFrom (groupedBatches GEOM_STATIC true key calls)) /\
  (forall key, Map_Find key (batchGroups_ q) =
               groupFrom (groupedBatches GEOM_STATIC false key calls)) /\
  NoDup (Map_keys (priorityBatchGroups_ q)) /\
  NoDup (Map_keys (batchGroups_ q)) /\
  (forall key g, In (key, g) (priorityBatchGroups_ q) <->
                 groupFrom (groupedBatches GEOM_STATIC true key calls) = Some g) /\
  (forall key g, In (key, g) (batchGroups_ q) <->
                 groupFrom (groupedBatches GEOM_STATIC false key calls) = Some g).
Proof.
  intros G calls q0 q.
  assert (H : batches_ q = looseBatches G calls /\
    (forall key, Map_Find key (priorityBatchGroups_ q) =
                 groupFrom (groupedBatches G true key calls)) /\
    (forall key, Map_Find key (batchGroups_ q) =
                 groupFrom (groupedBatches G false key calls)) /\
    NoDup (Map_keys (priorityBatchGroups_ q)) /\
    NoDup (Map_keys (batchGroups_ q))).
  { subst q. induction calls as [| c calls IH] using rev_ind.
    - simpl. repeat split; constructor.
    - destruct IH as (Hb & Hp & Hn & Hdp & Hdn).
      rewrite AddBatches_snoc. unfold AddBatch.
      destruct (notInstanceable G (fst c) (snd c)) eqn:Hni; simpl.
      + rewrite looseBatches_snoc, Hni, Hb.
        split; [reflexivity |].
        split; [intros key; rewrite groupedBatches_skip by (now left); apply Hp |].
        split; [intros key; rewrite groupedBatches_skip by (now left); apply Hn |].
        now split.
      + destruct (hasPriority_ (fst c)) eqn:Hpr; simpl.
        * rewrite looseBatches_snoc, Hni, app_nil_r.
          split; [exact Hb |].
          split; [now apply groupedBatches_step |].
          split; [intros key; rewrite groupedBatches_skip
                    by (right; rewrite Hpr; discriminate); apply Hn |].
          split; [now apply addToGroups_NoDup | exact Hdn].
        * rewrite looseBatches_snoc, Hni, app_nil_r.
          split; [exact Hb |].
          split; [intros key; rewrite groupedBatches_skip
                    by (right; rewrite Hpr; discriminate); apply Hp |].
          split; [now apply groupedBatches_step |].
          split; [exact Hdp | now apply addToGroups_NoDup]. }
  destruct H as (Hb & Hp & Hn & Hdp & Hdn).
  repeat split; try assumption.
  - intros Hin. rewrite <- Hp. now apply Map_Find_In.
  - intros Hg. apply Map_Find_In; [assumption |]. now rewrite Hp.
  - intros Hin. rewrite <- Hn. now apply Map_Find_In.
  - intros Hg. apply Map_Find_In; [assumption |]. now rewrite Hn.
Qed.

(** ** Instancing-buffer allocation *)

Lemma Size_cons {A : Type} (x : A) (l : list A) : Size (x :: l) = Size l + 1.
Proof. unfold Size. simpl length. lia. Qed.

Lemma Size_nonneg {A : Type} (l : list A) : 0 <= Size l.
Proof. unfold Size. lia. Qed.

Section Allocation.

Variable renderer : Renderer.
Variable h : Heap.

Lemma writeTransforms_Size (l : list InstanceData) (d : Z) (data : LockedData) :
  Size (writeTransforms h l d data) = Size data + Size l.
Proof.
  revert d data. induction l as [| x l IH]; intros d data; simpl.
  - unfold Size. simpl. lia.
  - rewrite IH, !Size_cons. lia.
Qed.

Lemma writeTransforms_outside (l : list InstanceData) (d : Z) (data : LockedData) (slot : Z) :
  slot < d \/ d + Size l <= slot ->
  readSlot (writeTransforms h l d data) slot = readSlot data slot.
Proof.
  revert d data. induction l as [| x l IH]; intros d data Hs; simpl.
  - reflexivity.
  - rewrite Size_cons in Hs. pose proof (Size_nonneg l).
    rewrite IH by lia. simpl.
    destruct (Z.eqb_spec d slot); [lia | reflexivity].
Qed.

Lemma writeTransforms_inside (l : list InstanceData) (d : Z) (data : LockedData)
    (i : nat) (inst : InstanceData) :
  nth_error l i = Some inst ->
  readSlot (writeTransforms h l d data) (d + Z.of_nat i) =
  Some (transforms h (i_worldTransform_ inst)).
Proof.
  revert d data i. induction l as [| x l IH]; intros d data i Hi.
  - destruct i; discriminate.
  - simpl. destruct i as [| i]; simpl in Hi.
    + injection Hi as ->. rewrite writeTransforms_outside by (left; simpl; lia).
      replace (d + Z.of_nat 0) with d by (simpl; lia).
      cbn [readSlot]. now rewrite Z.eqb_refl.
    + replace (d + Z.of_nat (S i)) with (d + 1 + Z.of_nat i) by lia.
      now apply IH.
Qed.

Lemma notInstanced_iff (g : BatchGroup) :
  notInstanced renderer h g = true <->
  Size (g_instances_ g) < minGroupSize renderer \/
  GetIndexCount (geometries h (g_geometry_ g)) > maxIndexCount renderer.
Proof.
  unfold notInstanced. rewrite orb_true_iff, Z.ltb_lt, Z.gtb_ltb, Z.ltb_lt. lia.
Qed.

Lemma wrap32_add_l (a b : Z) : wrap32 (wrap32 a + b) = wrap32 (a + b).
Proof. unfold wrap32. apply Zplus_mod_idemp_l. Qed.

Lemma wrap32_range (a : Z) : 0 <= wrap32 a < 2 ^ 32.
Proof. unfold wrap32. apply Z.mod_pos_bound. lia. Qed.

Lemma wrap32_small (a : Z) : 0 <= a < 2 ^ 32 -> wrap32 a = a.
Proof. unfold wrap32. apply Z.mod_small. Qed.

Lemma eligibleInstances_nonneg (m : Map) : 0 <= eligibleInstances renderer h m.
Proof.
  induction m as [| [k g] m IH]; simpl; [lia |].
  pose proof (Size_nonneg (g_instances_ g)).
  destruct (notInstanced renderer h g); lia.
Qed.

Lemma Map_SetTransforms_spec (m : Map) (data : LockedData) (c : Z) :
  let r := Map_SetTransforms renderer h m data c in
  transformsWritten data (snd (fst r)) = eligibleInstances renderer h m /\
  wrap32 (snd r) = wrap32 (c + eligibleInstances renderer h m) /\
  (0 <= c < 2 ^ 32 -> 0 <= snd r < 2 ^ 32).
Proof.
  revert data c. induction m as [| [k g] m IH]; intros data c; simpl.
  - unfold transformsWritten. repeat split; try lia. f_equal. lia.
  - unfold BatchGroup_SetTransforms.
    destruct (notInstanced renderer h g) eqn:Hni.
    + specialize (IH data c). simpl in IH.
      destruct (Map_SetTransforms renderer h m data c) as [[m1 d1] c1]. simpl in *.
      exact IH.
    + specialize (IH (writeTransforms h (g_instances_ g) c data)
                     (wrap32 (c + Size (g_instances_ g)))). simpl in IH.
      destruct (Map_SetTransforms renderer h m
                  (writeTransforms h (g_instances_ g) c data)
                  (wrap32 (c + Size (g_instances_ g)))) as [[m1 d1] c1]. simpl in *.
      destruct IH as (Hw & Hc & Hr).
      unfold transformsWritten in *. rewrite writeTransforms_Size in Hw.
      split; [lia |]. split.
      * rewrite Hc, wrap32_add_l. f_equal. lia.
      * intros _. apply Hr. apply wrap32_range.
Qed.

Lemma Map_countInstances_spec (m : Map) (total : Z) :
  wrap32 (Map_countInstances renderer h m total) =
    wrap32 (total + eligibleInstances renderer h m) /\
  (0 <= total < 2 ^ 32 -> 0 <= Map_countInstances renderer h m total < 2 ^ 32).
Proof.
  revert total. induction m as [| [k g] m IH]; intros total; simpl.
  - split; [f_equal; lia | tauto].
  - assert (Hcond : (Size (g_instances_ g) >=? minGroupSize renderer) &&
                    (GetIndexCount (geometries h (g_geometry_ g)) <=? maxIndexCount renderer)
                    = negb (notInstanced renderer h g)).
    { unfold notInstanced. rewrite negb_orb, Z.geb_leb, Z.gtb_ltb.
      rewrite <- !Z.leb_antisym. reflexivity. }
    rewrite Hcond.
    destruct (notInstanced renderer h g); simpl.
    + apply IH.
    + destruct (IH (wrap32 (total + Size (g_instances_ g)))) as [Hc Hr].
      split.
      * rewrite Hc, wrap32_add_l. f_equal. lia.
      * intros _. apply Hr. apply wrap32_range.
Qed.

End Allocation.

(** C8.  [BatchGroup::SetTransforms] at cursor [c].  When the instance
    count is below the minimum group size, or the geometry's index count
    exceeds the index limit (three times the maximum instanced triangle
    count, in [unsigned] arithmetic), nothing changes: the group (so a
    start index at the sentinel stays there), the buffer and the cursor.
    Otherwise the start index becomes [c], the transform of instance [i]
    is in slot [c + i] for every [i], every other slot is as before, as
    many matrices were written as there are instances, and the cursor has
    advanced by the instance count (in [unsigned] arithmetic; exactly
    [c + count] when that fits 32 bits).  The two thresholds are the
    configured minimum and three times the configured maximum whenever
    those fit 32 bits. *)
Theorem BatchGroup_SetTransforms_spec :
  forall (renderer : Renderer) (h : Heap) (g : BatchGroup)
         (lockedData : LockedData) (c : Z),
  let r := BatchGroup_SetTransforms renderer h g lockedData c in
  let g' := fst (fst r) in
  let data' := snd (fst r) in
  let c' := snd r in
  let count := Size (g_instances_ g) in
  let skipped :=
    count < minGroupSize renderer \/
    GetIndexCount (geometries h (g_geometry_ g)) > maxIndexCount renderer in
  (skipped ->
     g' = g /\ data' = lockedData /\ c' = c /\
     (g_startIndex_ g = M_MAX_UNSIGNED -> g_startIndex_ g' = M_MAX_UNSIGNED)) /\
  (~ skipped ->
     g' = set_startIndex g c /\ g_startIndex_ g' = c /\
     (forall i inst, nth_error (g_instances_ g) i = Some inst ->
        readSlot data' (c + Z.of_nat i) = Some (transforms h (i_worldTransform_ inst))) /\
     (forall slot, slot < c \/ c + count <= slot ->
        readSlot data' slot = readSlot lockedData slot) /\
     transformsWritten lockedData data' = count /\
     c' = wrap32 (c + count) /\
     (0 <= c -> c + count < 2 ^ 32 -> c' = c + count)) /\
  (0 <= GetMinInstanceGroupSize renderer < 2 ^ 32 ->
     minGroupSize renderer = GetMinInstanceGroupSize renderer) /\
  (0 <= GetMaxInstanceTriangles renderer * 3 < 2 ^ 32 ->
     maxIndexCount renderer = 3 * GetMaxInstanceTriangles renderer).
Proof.
  intros renderer h g lockedData c r g' data' c' count skipped.
  pose proof (notInstanced_iff renderer h g) as Hiff. fold count skipped in Hiff.
  subst r g' data' c'. unfold BatchGroup_SetTransforms.
  split.
  { intros Hs. apply Hiff in Hs. rewrite Hs. simpl. tauto. }
  split.
  { intros Hs.
    destruct (notInstanced renderer h g); [exfalso; apply Hs; now apply Hiff |].
    simpl. fold count.
    split; [reflexivity |]. split; [reflexivity |].
    split; [intros i inst Hi; now apply writeTransforms_inside |].
    split; [intros slot Hslot; now apply writeTransforms_outside |].
    split; [unfold transformsWritten; rewrite writeTransforms_Size; fold count; lia |].
    split; [reflexivity |].
    intros H0 Hfit. apply wrap32_small. subst count.
    pose proof (Size_nonneg (g_instances_ g)). lia. }
  split.
  { intros Hmin. unfold minGroupSize. now apply wrap32_small. }
  intros Hmax. unfold maxIndexCount. rewrite wrap32_small by exact Hmax. lia.
Qed.

(** C3.  [GetNumInstances] against a following [BatchQueue::SetTransforms]
    on the same queue and an unconstrained buffer: the count returned is
    the number of transforms written, reduced to [unsigned] as the code
    adds it up, and the cursor has advanced by that count; whenever the
    number written (and the cursor) fit 32 bits the three numbers are
    equal.  The transforms written are those of the groups that meet the
    minimum size and the index limit. *)
Theorem GetNumInstances_matches_SetTransforms :
  forall (renderer : Renderer) (h : Heap) (q : BatchQueue)
         (lockedData : LockedData) (freeIndex : Z),
  let r := BatchQueue_SetTransforms renderer h q lockedData freeIndex in
  let data' := snd (fst r) in
  let freeIndex' := snd r in
  let n := GetNumInstances renderer h q in
  let written := transformsWritten lockedData data' in
  0 <= written /\
  written = eligibleInstances renderer h (priorityBatchGroups_ q) +
            eligibleInstances renderer h (batchGroups_ q) /\
  n = wrap32 written /\
  wrap32 freeIndex' = wrap32 (freeIndex + n) /\
  (written < 2 ^ 32 -> n = written) /\
  (0 <= freeIndex -> freeIndex + written < 2 ^ 32 ->
     n = written /\ freeIndex' = freeIndex + n).
Proof.
  intros renderer h q lockedData freeIndex r data' freeIndex' n written.
  subst r data' freeIndex' n written.
  unfold BatchQueue_SetTransforms, GetNumInstances.
  pose proof (Map_SetTransforms_spec renderer h (priorityBatchGroups_ q) lockedData freeIndex) as H1.
  destruct (Map_SetTransforms renderer h (priorityBatchGroups_ q) lockedData freeIndex)
    as [[pg d1] c1]. simpl in H1.
  pose proof (Map_SetTransforms_spec renderer h (batchGroups_ q) d1 c1) as H2.
  destruct (Map_SetTransforms renderer h (batchGroups_ q) d1 c1) as [[gs d2] c2].
  simpl in H2. simpl.
  destruct H1 as (W1 & C1 & R1). destruct H2 as (W2 & C2 & R2).
  pose proof (eligibleInstances_nonneg renderer h (priorityBatchGroups_ q)) as P1.
  pose proof (eligibleInstances_nonneg renderer h (batchGroups_ q)) as P2.
  set (e1 := eligibleInstances renderer h (priorityBatchGroups_ q)) in *.
  set (e2 := eligibleInstances renderer h (batchGroups_ q)) in *.
  assert (Hw : transformsWritten lockedData d2 = e1 + e2)
    by (unfold transformsWritten in *; lia).
  destruct (Map_countInstances_spec renderer h (priorityBatchGroups_ q) 0) as [N1 B1].
  fold e1 in N1.
  set (t1 := Map_countInstances renderer h (priorityBatchGroups_ q) 0) in *.
  destruct (Map_countInstances_spec renderer h (batchGroups_ q) t1) as [N2 B2].
  fold e2 in N2.
  set (t2 := Map_countInstances renderer h (batchGroups_ q) t1) in *.
  assert (Ht1 : 0 <= t1 < 2 ^ 32) by (apply B1; lia).
  assert (Ht2 : 0 <= t2 < 2 ^ 32) by (apply B2; exact Ht1).
  assert (Hn : t2 = wrap32 (e1 + e2)).
  { rewrite <- (wrap32_small t2 Ht2), N2, <- wrap32_add_l, N1, wrap32_add_l.
    f_equal. }
  assert (Hc : wrap32 c2 = wrap32 (freeIndex + (e1 + e2))).
  { rewrite C2, <- wrap32_add_l, C1, wrap32_add_l. f_equal. lia. }
  rewrite Hw.
  split; [lia |]. split; [reflexivity |]. split; [exact Hn |].
  split.
  { rewrite Hc, Hn. unfold wrap32. rewrite Zplus_mod_idemp_r. reflexivity. }
  split.
  { intros Hlt. rewrite Hn. apply wrap32_small. lia. }
  intros H0 Hfit.
  assert (Hn' : t2 = e1 + e2) by (rewrite Hn; apply wrap32_small; lia).
  split; [exact Hn' |].
  rewrite Hn'.
  assert (Hr : 0 <= c2 < 2 ^ 32).
  { apply R2. apply R1. lia. }
  rewrite <- (wrap32_small c2 Hr), Hc. apply wrap32_small. lia.
Qed.

(** ** Chunks *)

Lemma chunkSizes_sum (capacity fuel remaining : nat) :
  (0 < capacity)%nat -> (remaining <= fuel)%nat ->
  list_sum (chunkSizes fuel remaining capacity) = remaining.
Proof.
  intros Hcap. revert remaining.
  induction fuel as [| fuel IH]; intros remaining Hle; simpl.
  - lia.
  - destruct (Nat.eqb_spec remaining 0) as [-> | Hne]; [reflexivity |].
    simpl. rewrite IH by lia. lia.
Qed.

Lemma chunkSizes_fuel (capacity fuel fuel' remaining : nat) :
  (0 < capacity)%nat -> (remaining <= fuel)%nat -> (remaining <= fuel')%nat ->
  chunkSizes fuel remaining capacity = chunkSizes fuel' remaining capacity.
Proof.
  intros Hcap. revert fuel' remaining.
  induction fuel as [| fuel IH]; intros fuel' remaining H1 H2.
  - assert (remaining = 0%nat) as -> by lia. destruct fuel'; reflexivity.
  - destruct fuel' as [| fuel'].
    + assert (remaining = 0%nat) as -> by lia. reflexivity.
    + simpl. destruct (Nat.eqb_spec remaining 0); [reflexivity |].
      f_equal. apply IH; lia.
Qed.

Lemma chunkSizes_nth (capacity fuel remaining k c : nat) :
  nth_error (chunkSizes fuel remaining capacity) k = Some c ->
  c = Nat.min (remaining - list_sum (firstn k (chunkSizes fuel remaining capacity)))
        capacity.
Proof.
  revert remaining k. induction fuel as [| fuel IH]; intros remaining k; simpl.
  - destruct k; discriminate.
  - destruct (Nat.eqb_spec remaining 0) as [-> | Hne].
    + destruct k; discriminate.
    + destruct k as [| k]; simpl.
      * intros H. injection H as <-. f_equal. lia.
      * intros H. apply IH in H. rewrite H at 1. f_equal. lia.
Qed.

Lemma splitBy_concat {A : Type} (sizes : list nat) (l : list A) :
  list_sum sizes = length l -> concat (splitBy sizes l) = l.
Proof.
  revert l. induction sizes as [| n sizes IH]; intros l Hsum; simpl in *.
  - destruct l; [reflexivity | discriminate].
  - rewrite IH; [apply firstn_skipn |]. rewrite length_skipn. lia.
Qed.

Lemma splitBy_lengths {A : Type} (sizes : list nat) (l : list A) :
  (list_sum sizes <= length l)%nat -> map (@length A) (splitBy sizes l) = sizes.
Proof.
  revert l. induction sizes as [| n sizes IH]; intros l Hsum; simpl in *.
  - reflexivity.
  - rewrite IH by (rewrite length_skipn; lia).
    rewrite firstn_length_le by lia. reflexivity.
Qed.

Lemma splitBy_firstn {A : Type} (k : nat) (sizes : list nat) (l : list A) :
  firstn k (splitBy sizes l) = splitBy (firstn k sizes) l.
Proof.
  revert sizes l. induction k as [| k IH]; intros sizes l; [reflexivity |].
  destruct sizes as [| n sizes]; simpl; [reflexivity |]. now rewrite IH.
Qed.

(** ** Traces *)

Lemma instancedDraws_app (a b : list GraphicsCall) :
  instancedDraws (a ++ b) = instancedDraws a ++ instancedDraws b.
Proof.
  induction a as [| c a IH]; simpl; [reflexivity |].
  destruct c; simpl; rewrite ?IH; reflexivity.
Qed.

Lemma instancedDraws_stores {A : Type} (f : A -> nat) (m : A -> Matrix3x4)
    (buffer : ptr) (l : list A) :
  instancedDraws (map (fun i => Store buffer (f i) (m i)) l) = [].
Proof. induction l as [| x l IH]; simpl; [reflexivity | exact IH]. Qed.

Lemma instancedDraws_chunkCalls (h : Heap) (g : BatchGroup) (vb : VertexBuffer)
    (chunk : list InstanceData) :
  instancedDraws (chunkCalls h g vb chunk) = [length chunk].
Proof.
  unfold chunkCalls. simpl. rewrite instancedDraws_app.
  rewrite (instancedDraws_stores (fun i => i)
             (fun i => transforms h (i_worldTransform_ (nth i chunk InstanceData_default)))).
  reflexivity.
Qed.

Lemma instancedDraws_chunks (h : Heap) (g : BatchGroup) (vb : VertexBuffer)
    (chunks : list (list InstanceData)) :
  instancedDraws (flat_map (chunkCalls h g vb) chunks) = map (@length _) chunks.
Proof.
  induction chunks as [| c chunks IH]; [reflexivity |].
  cbn [flat_map map]. rewrite instancedDraws_app, instancedDraws_chunkCalls, IH.
  reflexivity.
Qed.

Lemma fold_emit (F : Heap -> nat -> GraphicsCall) (l : list nat) (w : World) :
  let w' := fold_left (fun w i => emit (F (heap w) i) w) l w in
  heap w' = heap w /\ lockResults w' = lockResults w /\
  calls w' = calls w ++ map (F (heap w)) l.
Proof.
  revert w. induction l as [| i l IH]; intros w; simpl.
  - now rewrite app_nil_r.
  - destruct (IH (emit (F (heap w) i) w)) as (Hh & Hl & Hc).
    rewrite Hh, Hl, Hc. simpl. rewrite <- app_assoc. auto.
Qed.

Lemma Batch_Prepare_frame (batch : Batch) (setModelTransform : bool) (w : World) :
  heap (Batch_Prepare batch setModelTransform w) = heap w /\
  lockResults (Batch_Prepare batch setModelTransform w) = lockResults w /\
  instancedDraws (calls (Batch_Prepare batch setModelTransform w)) =
    instancedDraws (calls w).
Proof.
  unfold Batch_Prepare.
  destruct ((vertexShader_ batch =? 0) || (pixelShader_ batch =? 0)); simpl; auto.
  rewrite instancedDraws_app. simpl. now rewrite app_nil_r.
Qed.

(** Among the next [n] lock results either none fails or there is a
    first one that does. *)
Lemma lockResults_cases (n : nat) (l : list bool) :
  Forall (fun r => r = true) (firstn n l) \/
  exists k rest, (k < n)%nat /\ l = repeat true k ++ false :: rest.
Proof.
  revert l. induction n as [| n IH]; intros l.
  - left. constructor.
  - destruct l as [| [|] l].
    + left. constructor.
    + destruct (IH l) as [Hall | (k & rest & Hk & ->)].
      * left. now constructor.
      * right. exists (S k), rest. split; [lia | reflexivity].
    + right. exists 0%nat, l. split; [lia | reflexivity].
Qed.

Lemma locksSucceed_firstn (n : nat) (w : World) :
  locksSucceed w -> Forall (fun r => r = true) (firstn n (lockResults w)).
Proof.
  unfold locksSucceed. generalize (lockResults w) as l. revert n.
  induction n as [| n IH]; intros l Hl; [constructor |].
  destruct Hl as [| r l Hr Hl]; simpl; [constructor |].
  constructor; [exact Hr | now apply IH].
Qed.

Section ChunkLoop.

Variable g : BatchGroup.
Variable vb : VertexBuffer.

Lemma chunkStep_spec (startIndex c : nat) (w : World) :
  (startIndex + c <= length (g_instances_ g))%nat ->
  let w' := chunkStep g vb startIndex c w in
  heap w' = heap w /\ lockResults w' = lockResults w /\
  calls w' ++ [] =
    calls w ++
    tl (chunkCalls (heap w) g vb (firstn c (skipn startIndex (g_instances_ g)))).
Proof.
  intros Hle. unfold chunkStep, copyTransforms.
  destruct (fold_emit
    (fun h i => Store (vb_address vb) i
       (transforms h (i_worldTransform_
          (nth (i + startIndex) (g_instances_ g) InstanceData_default))))
    (seq 0 c) w) as (Hh & Hl & Hc).
  set (w1 := fold_left _ (seq 0 c) w) in *.
  unfold emitDrawInstanced, emitSetBuffers. simpl.
  rewrite Hh, Hl, Hc. split; [reflexivity |]. split; [reflexivity |].
  rewrite app_nil_r. unfold chunkCalls. simpl.
  assert (Hlen : length (firstn c (skipn startIndex (g_instances_ g))) = c).
  { rewrite firstn_length_le; [reflexivity |]. rewrite length_skipn. lia. }
  rewrite Hlen. rewrite <- !app_assoc. simpl. f_equal. f_equal.
  apply map_ext_in. intros i Hi. apply in_seq in Hi.
  rewrite nth_firstn, nth_skipn.
  destruct (Nat.ltb_spec i c); [| lia].
  replace (startIndex + i)%nat with (i + startIndex)%nat by lia. reflexivity.
Qed.

Lemma lockedChunk_calls (startIndex c : nat) (w : World) (rs : list bool) :
  (startIndex + c <= length (g_instances_ g))%nat ->
  calls (chunkStep g vb startIndex c
           (mkWorld (heap w) (calls w ++ [Lock (vb_address vb) 0 c true]) rs)) =
  calls w ++ chunkCalls (heap w) g vb (firstn c (skipn startIndex (g_instances_ g))).
Proof.
  intros Hle.
  destruct (chunkStep_spec startIndex c
              (mkWorld (heap w) (calls w ++ [Lock (vb_address vb) 0 c true]) rs) Hle)
    as (_ & _ & Hc).
  rewrite app_nil_r in Hc. rewrite Hc. simpl calls. simpl heap.
  rewrite <- app_assoc. f_equal.
  unfold chunkCalls.
  rewrite firstn_length_le by (rewrite length_skipn; lia).
  reflexivity.
Qed.

Lemma fillAndDraw_runChunks (fuel startIndex : nat) (w : World) :
  (0 < vb_GetVertexCount vb)%nat ->
  (length (g_instances_ g) - startIndex <= fuel)%nat ->
  fillAndDraw fuel g vb startIndex w =
  runChunks
    (chunkSizes fuel (length (g_instances_ g) - startIndex) (vb_GetVertexCount vb))
    g vb startIndex w.
Proof.
  intros Hcap. revert startIndex w.
  induction fuel as [| fuel IH]; intros startIndex w Hfuel.
  - simpl. destruct (Nat.ltb_spec startIndex (length (g_instances_ g))); [lia | reflexivity].
  - cbn [fillAndDraw chunkSizes].
    destruct (Nat.ltb_spec startIndex (length (g_instances_ g))) as [Hlt | Hge].
    + destruct (Nat.eqb_spec (length (g_instances_ g) - startIndex) 0) as [H0 | _]; [lia |].
      set (remaining := (length (g_instances_ g) - startIndex)%nat) in *.
      assert (Hmin : (if (vb_GetVertexCount vb <? remaining)%nat
                      then vb_GetVertexCount vb else remaining)
                     = Nat.min remaining (vb_GetVertexCount vb)).
      { destruct (Nat.ltb_spec (vb_GetVertexCount vb) remaining); lia. }
      rewrite Hmin. cbn [runChunks].
      set (c := Nat.min remaining (vb_GetVertexCount vb)) in *.
      destruct (VertexBuffer_Lock vb 0 c w) as [ok w1].
      destruct ok; simpl; [| reflexivity].
      rewrite IH by (subst c remaining; lia).
      unfold chunkStep. do 2 f_equal. subst remaining. lia.
    + destruct (Nat.eqb_spec (length (g_instances_ g) - startIndex) 0); [reflexivity | lia].
Qed.

Lemma runChunks_completed (sizes : list nat) (startIndex : nat) (w : World) :
  Forall (fun r => r = true) (firstn (length sizes) (lockResults w)) ->
  (startIndex + list_sum sizes <= length (g_instances_ g))%nat ->
  exists w',
    runChunks sizes g vb startIndex w = Completed w' /\
    heap w' = heap w /\
    lockResults w' = skipn (length sizes) (lockResults w) /\
    calls w' =
      calls w ++
      flat_map (chunkCalls (heap w) g vb)
        (splitBy sizes (skipn startIndex (g_instances_ g))).
Proof.
  revert startIndex w.
  induction sizes as [| c sizes IH]; intros startIndex w Hlocks Hsum.
  - exists w. simpl. now rewrite app_nil_r.
  - cbn [runChunks]. simpl list_sum in Hsum. unfold VertexBuffer_Lock.
    assert (Hok : match lockResults w with [] => true | r :: _ => r end = true).
    { destruct (lockResults w); [reflexivity | now inversion Hlocks]. }
    rewrite Hok. cbn [negb].
    set (w1 := mkWorld (heap w)
                 (calls w ++ [Lock (vb_address vb) 0 c true]) (tl (lockResults w))).
    destruct (chunkStep_spec startIndex c w1) as (Hh & Hl & _); [lia |].
    pose proof (lockedChunk_calls startIndex c w (tl (lockResults w))) as Hc.
    fold w1 in Hc.
    destruct (IH (startIndex + c)%nat (chunkStep g vb startIndex c w1))
      as (w' & Hrun & Hh' & Hl' & Hc').
    { rewrite Hl. simpl.
      destruct (lockResults w) as [| r rs];
        [rewrite firstn_nil; constructor | now inversion Hlocks]. }
    { lia. }
    exists w'. split; [exact Hrun |].
    split; [now rewrite Hh', Hh |].
    split.
    { rewrite Hl', Hl. simpl. destruct (lockResults w); simpl; [apply skipn_nil | reflexivity]. }
    rewrite Hc', Hc, Hh by lia. simpl heap.
    cbn [splitBy flat_map]. rewrite skipn_skipn.
    replace (c + startIndex)%nat with (startIndex + c)%nat by lia.
    rewrite <- !app_assoc. reflexivity.
Qed.

Lemma runChunks_aborted (sizes : list nat) (k startIndex : nat) (w : World)
    (rest : list bool) :
  lockResults w = repeat true k ++ false :: rest ->
  (k < length sizes)%nat ->
  (startIndex + list_sum sizes <= length (g_instances_ g))%nat ->
  exists w1,
    runChunks sizes g vb startIndex w =
      Aborted (updateGeometry (g_geometry_ g) popStream w1) /\
    heap w1 = heap w /\
    lockResults w1 = rest /\
    calls w1 =
      calls w ++
      flat_map (chunkCalls (heap w) g vb)
        (splitBy (firstn k sizes) (skipn startIndex (g_instances_ g))) ++
      [Lock (vb_address vb) 0 (nth k sizes 0%nat) false].
Proof.
  revert k startIndex w.
  induction sizes as [| c sizes IH]; intros k startIndex w Hlocks Hk Hsum.
  - simpl in Hk. lia.
  - cbn [runChunks]. simpl list_sum in Hsum. unfold VertexBuffer_Lock. rewrite Hlocks.
    destruct k as [| k]; simpl repeat; cbn [app tl negb].
    + eexists. split; [reflexivity |]. simpl. auto.
    + set (w1 := mkWorld (heap w)
                   (calls w ++ [Lock (vb_address vb) 0 c true])
                   (repeat true k ++ false :: rest)).
      destruct (chunkStep_spec startIndex c w1) as (Hh & Hl & _); [lia |].
      pose proof (lockedChunk_calls startIndex c w (repeat true k ++ false :: rest)) as Hc.
      fold w1 in Hc.
      destruct (IH k (startIndex + c)%nat (chunkStep g vb startIndex c w1))
        as (w2 & Hrun & Hh' & Hl' & Hc').
      { rewrite Hl. reflexivity. }
      { simpl in Hk. lia. }
      { lia. }
      exists w2. split; [exact Hrun |].
      split; [now rewrite Hh', Hh |].
      split; [exact Hl' |].
      rewrite Hc', Hc, Hh by lia. simpl heap.
      cbn [firstn splitBy flat_map nth]. rewrite skipn_skipn.
      replace (c + startIndex)%nat with (startIndex + c)%nat by lia.
      rewrite <- !app_assoc. reflexivity.
Qed.

End ChunkLoop.

(** ** Drawing a group *)

Lemma popStream_pushStream (vb : VertexBuffer) (geom : Geometry) :
  popStream (pushStream vb geom) = geom.
Proof.
  destruct geom. unfold popStream, pushStream. simpl.
  rewrite !removelast_last. reflexivity.
Qed.

Lemma list_sum_firstn_le (k : nat) (l : list nat) :
  (list_sum (firstn k l) <= list_sum l)%nat.
Proof.
  revert l. induction k as [| k IH]; intros l; simpl; [lia |].
  destruct l as [| x l]; simpl; [lia |]. specialize (IH l). lia.
Qed.

Section DrawFacts.

Variables GEOM_INSTANCED MAX_LIGHT_VS_VARIATIONS : Z.
Variable g : BatchGroup.
Variable vb : VertexBuffer.

Lemma beginInstanced_frame (w : World) :
  let w0 := beginInstanced GEOM_INSTANCED MAX_LIGHT_VS_VARIATIONS g vb w in
  (forall a, geometries (heap w0) a =
             if a =? g_geometry_ g then pushStream vb (geometries (heap w) a)
             else geometries (heap w) a) /\
  passes (heap w0) = passes (heap w) /\
  transforms (heap w0) = transforms (heap w) /\
  lockResults w0 = lockResults w /\
  instancedDraws (calls w0) = instancedDraws (calls w).
Proof.
  unfold beginInstanced.
  set (batch := set_vertexShader _ _).
  destruct (Batch_Prepare_frame batch false w) as (Hh & Hl & Hd).
  simpl. rewrite Hh, Hl, Hd. auto.
Qed.

(** Popping the stream pushed by [beginInstanced] gives the geometries
    back, whatever was drawn in between. *)
Lemma popStream_restores (w w1 : World) :
  heap w1 = heap (beginInstanced GEOM_INSTANCED MAX_LIGHT_VS_VARIATIONS g vb w) ->
  let w' := updateGeometry (g_geometry_ g) popStream w1 in
  (forall a, geometries (heap w') a = geometries (heap w) a) /\
  passes (heap w') = passes (heap w) /\
  transforms (heap w') = transforms (heap w).
Proof.
  intros Hw1.
  destruct (beginInstanced_frame w) as (Hg & Hp & Ht & _).
  simpl. rewrite Hw1, Hp, Ht. repeat split.
  intros a. rewrite Hg.
  destruct (a =? g_geometry_ g); [apply popStream_pushStream | reflexivity].
Qed.

End DrawFacts.

(** ** Termination of the chunk loop *)

Lemma runChunks_result (sizes : list nat) (g : BatchGroup) (vb : VertexBuffer)
    (startIndex : nat) (w : World) :
  runChunks sizes g vb startIndex w <> OutOfFuel.
Proof.
  revert startIndex w. induction sizes as [| c sizes IH]; intros startIndex w; simpl.
  - discriminate.
  - destruct (match lockResults w with [] => true | r :: _ => r end); simpl.
    + apply IH.
    + discriminate.
Qed.

(** With a buffer of positive capacity [BatchGroup::Draw] returns. *)
Lemma BatchGroup_Draw_returns (GEOM_INSTANCED MAX_LIGHT_VS_VARIATIONS : Z)
    (renderer : Renderer) (g : BatchGroup) (w : World) :
  (forall vb, GetInstancingBuffer renderer = Some vb -> (0 < vb_GetVertexCount vb)%nat) ->
  exists w', BatchGroup_Draw GEOM_INSTANCED MAX_LIGHT_VS_VARIATIONS renderer g w = Some w'.
Proof.
  intros Hcap. unfold BatchGroup_Draw.
  destruct (length (g_instances_ g) =? 0)%nat; [eauto |].
  destruct (GetInstancingBuffer renderer) as [vb |]; [| eauto].
  destruct (notInstanced renderer (heap w) g); [eauto |].
  destruct (g_startIndex_ g =? M_MAX_UNSIGNED); [| eauto].
  rewrite fillAndDraw_runChunks by (auto; lia).
  match goal with
  | |- context [runChunks ?s ?g ?v ?i ?x] =>
      pose proof (runChunks_result s g v i x) as Hres;
      destruct (runChunks s g v i x)
  end; [eauto | eauto | congruence].
Qed.

(** The loop is out of fuel only when it does not terminate: the capacity
    is zero and no coming lock fails. *)
Lemma fillAndDraw_OutOfFuel (g : BatchGroup) (vb : VertexBuffer)
    (fuel startIndex : nat) (w : World) :
  (length (g_instances_ g) - startIndex + length (lockResults w) <= fuel)%nat ->
  fillAndDraw fuel g vb startIndex w = OutOfFuel ->
  vb_GetVertexCount vb = 0%nat /\ locksSucceed w.
Proof.
  intros Hfuel Hout.
  destruct (Nat.eq_dec (vb_GetVertexCount vb) 0) as [Hcap | Hcap].
  - split; [exact Hcap |].
    revert startIndex w Hfuel Hout.
    induction fuel as [| fuel IH]; intros startIndex w Hfuel Hout.
    + unfold locksSucceed. destruct (lockResults w); [constructor | simpl in Hfuel; lia].
    + cbn [fillAndDraw] in Hout.
      destruct (Nat.ltb_spec startIndex (length (g_instances_ g))) as [Hlt | Hge];
        [| discriminate].
      rewrite Hcap in Hout.
      destruct (Nat.ltb_spec 0 (length (g_instances_ g) - startIndex)); [| lia].
      unfold VertexBuffer_Lock in Hout. unfold locksSucceed.
      destruct (lockResults w) as [| r rs] eqn:Hrs; [constructor |].
      destruct r; cbn [negb] in Hout; [| discriminate].
      constructor; [reflexivity |].
      match type of Hout with
      | fillAndDraw _ _ _ _ ?w1 = _ =>
          assert (Hl : lockResults w1 = rs);
          [| specialize (IH (startIndex + 0)%nat w1); rewrite Hl in IH; apply IH; [| exact Hout] ]
      end.
      * match goal with
        | |- lockResults (emitDrawInstanced _ _ (emitSetBuffers _ _ (emit _ ?x))) = _ =>
            change (lockResults x = rs)
        end.
        unfold copyTransforms.
        match goal with
        | |- lockResults (fold_left _ ?l ?x) = _ =>
            pose proof (fold_emit
              (fun h i => Store (vb_address vb) i
                 (transforms h (i_worldTransform_
                    (nth (i + startIndex) (g_instances_ g) InstanceData_default))))
              l x) as (_ & Hlr & _)
        end.
        exact Hlr.
      * simpl in Hfuel. lia.
  - exfalso.
    rewrite fillAndDraw_runChunks in Hout by lia.
    exact (runChunks_result _ _ _ _ _ Hout).
Qed.

Lemma BatchGroup_Draw_diverges (GEOM_INSTANCED MAX_LIGHT_VS_VARIATIONS : Z)
    (renderer : Renderer) (g : BatchGroup) (w : World) :
  BatchGroup_Draw GEOM_INSTANCED MAX_LIGHT_VS_VARIATIONS renderer g w = None ->
  exists vb,
    GetInstancingBuffer renderer = Some vb /\
    vb_GetVertexCount vb = 0%nat /\ locksSucceed w.
Proof.
  unfold BatchGroup_Draw.
  destruct (length (g_instances_ g) =? 0)%nat; [discriminate |].
  destruct (GetInstancingBuffer renderer) as [vb |]; [| discriminate].
  destruct (notInstanced renderer (heap w) g); [discriminate |].
  destruct (g_startIndex_ g =? M_MAX_UNSIGNED); [| discriminate].
  destruct (beginInstanced_frame GEOM_INSTANCED MAX_LIGHT_VS_VARIATIONS g vb w)
    as (_ & _ & _ & Hl & _).
  destruct (fillAndDraw _ g vb 0 _) eqn:Hloop; try discriminate.
  intros _. exists vb. split; [reflexivity |].
  apply fillAndDraw_OutOfFuel in Hloop; [| lia].
  unfold locksSucceed in *. rewrite Hl in Hloop. exact Hloop.
Qed.

(** C9.  An instancing-eligible group without a start offset, drawn with
    a buffer of positive capacity.  The instanced draw calls issued have,
    in order, the sizes of the first chunks of the instance list, each the
    smaller of the instances remaining and the capacity; the chunks are
    consecutive pieces of the instance list that make it up.  When no lock
    fails all chunks are drawn: the calls after the preparation are, chunk
    after chunk, lock, store the chunk's transforms from slot 0, unlock,
    bind, draw instanced.  Five instances with capacity 2 give the sizes
    2, 2, 1. *)
Theorem BatchGroup_Draw_chunks :
  forall (GEOM_INSTANCED MAX_LIGHT_VS_VARIATIONS : Z)
         (renderer : Renderer) (vb : VertexBuffer) (g : BatchGroup) (w : World),
  GetInstancingBuffer renderer = Some vb ->
  g_instances_ g <> [] ->
  notInstanced renderer (heap w) g = false ->
  g_startIndex_ g = M_MAX_UNSIGNED ->
  (0 < vb_GetVertexCount vb)%nat ->
  let instances := g_instances_ g in
  let capacity := vb_GetVertexCount vb in
  let sizes := chunkSizes (length instances) (length instances) capacity in
  let chunks := splitBy sizes instances in
  let w0 := beginInstanced GEOM_INSTANCED MAX_LIGHT_VS_VARIATIONS g vb w in
  exists w' drawn,
    BatchGroup_Draw GEOM_INSTANCED MAX_LIGHT_VS_VARIATIONS renderer g w = Some w' /\
    (drawn <= length sizes)%nat /\
    instancedDraws (calls w') = instancedDraws (calls w) ++ firstn drawn sizes /\
    (forall k c, nth_error sizes k = Some c ->
       c = Nat.min (length instances - list_sum (firstn k sizes)) capacity) /\
    list_sum sizes = length instances /\
    map (@length InstanceData) chunks = sizes /\
    concat chunks = instances /\
    (length instances = 5%nat -> capacity = 2%nat -> sizes = [2; 2; 1]%nat) /\
    (forall a, geometries (heap w') a = geometries (heap w) a) /\
    (locksSucceed w ->
       drawn = length sizes /\
       instancedDraws (calls w') = instancedDraws (calls w) ++ sizes /\
       calls w' = calls w0 ++ flat_map (chunkCalls (heap w0) g vb) chunks).
Proof.
  intros GI MLV renderer vb g w Hbuf Hne Hni Hstart Hcap
         instances capacity sizes chunks w0.
  assert (Hsum : list_sum sizes = length instances)
    by (apply chunkSizes_sum; [exact Hcap | lia]).
  destruct (beginInstanced_frame GI MLV g vb w) as (Hg0 & Hp0 & Ht0 & Hl0 & Hd0).
  fold w0 in Hg0, Hp0, Ht0, Hl0, Hd0.
  assert (Hdraw : BatchGroup_Draw GI MLV renderer g w =
                  match runChunks sizes g vb 0 w0 with
                  | Completed w1 => Some (updateGeometry (g_geometry_ g) popStream w1)
                  | Aborted w1 => Some w1
                  | OutOfFuel => None
                  end).
  { unfold BatchGroup_Draw. fold instances.
    destruct (Nat.eqb_spec (length instances) 0) as [H0 | _].
    { exfalso. apply Hne. now apply length_zero_iff_nil. }
    rewrite Hbuf, Hni, Hstart, Z.eqb_refl. fold w0.
    rewrite fillAndDraw_runChunks by (fold instances; lia || exact Hcap).
    fold instances. rewrite Nat.sub_0_r.
    rewrite (chunkSizes_fuel _ _ (length instances)) by (lia || exact Hcap).
    reflexivity. }
  assert (Hfacts :
    (forall k c, nth_error sizes k = Some c ->
       c = Nat.min (length instances - list_sum (firstn k sizes)) capacity) /\
    list_sum sizes = length instances /\
    map (@length InstanceData) chunks = sizes /\
    concat chunks = instances /\
    (length instances = 5%nat -> capacity = 2%nat -> sizes = [2; 2; 1]%nat)).
  { split; [intros k c Hk; now apply chunkSizes_nth in Hk |].
    split; [exact Hsum |].
    split; [apply splitBy_lengths; lia |].
    split; [now apply splitBy_concat |].
    intros H5 H2. unfold sizes. rewrite H5, H2. reflexivity. }
  destruct (lockResults_cases (length sizes) (lockResults w0))
    as [Hall | (k & rest & Hk & Hfail)].
  - destruct (runChunks_completed g vb sizes 0 w0 Hall) as (w1 & Hrun & Hh1 & Hl1 & Hc1).
    { fold instances. lia. }
    simpl skipn in Hc1. fold instances chunks in Hc1.
    assert (Hdrawn : instancedDraws (calls w1) = instancedDraws (calls w) ++ sizes).
    { rewrite Hc1, instancedDraws_app, instancedDraws_chunks, Hd0.
      unfold chunks. rewrite splitBy_lengths by lia. reflexivity. }
    exists (updateGeometry (g_geometry_ g) popStream w1), (length sizes).
    split; [rewrite Hdraw, Hrun; reflexivity |].
    split; [lia |].
    split; [rewrite firstn_all; exact Hdrawn |].
    repeat (split; [apply Hfacts |]).
    split; [apply (popStream_restores GI MLV g vb w w1 Hh1) |].
    intros _. split; [reflexivity |]. split; [exact Hdrawn | exact Hc1].
  - destruct (runChunks_aborted g vb sizes k 0 w0 rest Hfail Hk)
      as (w1 & Hrun & Hh1 & Hl1 & Hc1).
    { fold instances. lia. }
    simpl skipn in Hc1. fold instances in Hc1.
    exists (updateGeometry (g_geometry_ g) popStream w1), k.
    split; [rewrite Hdraw, Hrun; reflexivity |].
    split; [lia |].
    split.
    { simpl calls. rewrite Hc1, !instancedDraws_app, instancedDraws_chunks, Hd0.
      simpl. rewrite app_nil_r.
      rewrite splitBy_lengths; [reflexivity |].
      pose proof (list_sum_firstn_le k sizes). fold instances. lia. }
    repeat (split; [apply Hfacts |]).
    split; [apply (popStream_restores GI MLV g vb w w1 Hh1) |].
    intros Hlocks. exfalso.
    unfold locksSucceed in Hlocks. rewrite <- Hl0, Hfail in Hlocks.
    rewrite Forall_forall in Hlocks.
    specialize (Hlocks false). discriminate Hlocks.
    apply in_or_app. right. now left.
Qed.

(** C9 on the sample group: five instances, capacity 2, chunks 2, 2, 1. *)
Lemma BatchGroup_Draw_chunks_witness :
  exists w',
    BatchGroup_Draw 2 6 sampleRenderer sampleGroup sampleWorld = Some w' /\
    instancedDraws (calls w') = [2; 2; 1]%nat.
Proof.
  destruct (BatchGroup_Draw_chunks 2 6 sampleRenderer sampleBuffer sampleGroup
              sampleWorld eq_refl ltac:(discriminate) eq_refl eq_refl
              ltac:(simpl; lia))
    as (w' & drawn & Hdraw & _ & _ & _ & _ & _ & _ & _ & _ & Hfull).
  destruct (Hfull ltac:(constructor)) as (_ & Hsizes & _).
  exists w'. split; [exact Hdraw | exact Hsizes].
Defined.

(** C10.  An instancing-eligible group without a start offset, drawn with
    a buffer of positive capacity whose lock fails at chunk [k] after [k]
    successes: [BatchGroup::Draw] returns normally; the [k] chunks before
    were drawn, the failed lock is the last call made, so no later
    instance is drawn; and every geometry, that of the group included, has
    its vertex-buffer and element-mask lists as before the call. *)
Theorem BatchGroup_Draw_lock_failure :
  forall (GEOM_INSTANCED MAX_LIGHT_VS_VARIATIONS : Z)
         (renderer : Renderer) (vb : VertexBuffer) (g : BatchGroup) (w : World)
         (k : nat) (rest : list bool),
  GetInstancingBuffer renderer = Some vb ->
  g_instances_ g <> [] ->
  notInstanced renderer (heap w) g = false ->
  g_startIndex_ g = M_MAX_UNSIGNED ->
  (0 < vb_GetVertexCount vb)%nat ->
  let instances := g_instances_ g in
  let sizes := chunkSizes (length instances) (length instances) (vb_GetVertexCount vb) in
  let chunks := splitBy sizes instances in
  let w0 := beginInstanced GEOM_INSTANCED MAX_LIGHT_VS_VARIATIONS g vb w in
  lockResults w = repeat true k ++ false :: rest ->
  (k < length sizes)%nat ->
  exists w',
    BatchGroup_Draw GEOM_INSTANCED MAX_LIGHT_VS_VARIATIONS renderer g w = Some w' /\
    calls w' =
      calls w0 ++ flat_map (chunkCalls (heap w0) g vb) (firstn k chunks) ++
      [Lock (vb_address vb) 0 (nth k sizes 0%nat) false] /\
    instancedDraws (calls w') = instancedDraws (calls w) ++ firstn k sizes /\
    (forall a, geometries (heap w') a = geometries (heap w) a) /\
    passes (heap w') = passes (heap w) /\
    transforms (heap w') = transforms (heap w) /\
    lockResults w' = rest.
Proof.
  intros GI MLV renderer vb g w k rest Hbuf Hne Hni Hstart Hcap
         instances sizes chunks w0 Hlocks Hk.
  assert (Hsum : list_sum sizes = length instances)
    by (apply chunkSizes_sum; [exact Hcap | lia]).
  destruct (beginInstanced_frame GI MLV g vb w) as (Hg0 & Hp0 & Ht0 & Hl0 & Hd0).
  fold w0 in Hg0, Hp0, Ht0, Hl0, Hd0.
  destruct (runChunks_aborted g vb sizes k 0 w0 rest) as (w1 & Hrun & Hh1 & Hl1 & Hc1).
  { rewrite Hl0. exact Hlocks. }
  { exact Hk. }
  { fold instances. lia. }
  simpl skipn in Hc1. fold instances in Hc1.
  rewrite <- splitBy_firstn in Hc1. fold chunks in Hc1.
  exists (updateGeometry (g_geometry_ g) popStream w1).
  split.
  { unfold BatchGroup_Draw. fold instances.
    destruct (Nat.eqb_spec (length instances) 0) as [H0 | _].
    { exfalso. apply Hne. now apply length_zero_iff_nil. }
    rewrite Hbuf, Hni, Hstart, Z.eqb_refl. fold w0.
    rewrite fillAndDraw_runChunks by (fold instances; lia || exact Hcap).
    fold instances. rewrite Nat.sub_0_r.
    rewrite (chunkSizes_fuel _ _ (length instances)) by (lia || exact Hcap).
    fold sizes. rewrite Hrun. reflexivity. }
  split; [exact Hc1 |].
  split.
  { simpl calls. rewrite Hc1, !instancedDraws_app, instancedDraws_chunks, Hd0.
    simpl. rewrite app_nil_r. unfold chunks. rewrite splitBy_firstn.
    rewrite splitBy_lengths; [reflexivity |].
    pose proof (list_sum_firstn_le k sizes). fold instances. lia. }
  destruct (popStream_restores GI MLV g vb w w1 Hh1) as (Hg & Hp & Ht).
  split; [exact Hg |]. split; [exact Hp |]. split; [exact Ht |].
  exact Hl1.
Qed.

(** C10 on the sample group when the second lock fails: one chunk of two
    instances is drawn, then nothing, and the geometries are as before. *)
Lemma BatchGroup_Draw_lock_failure_witness :
  exists w',
    BatchGroup_Draw 2 6 sampleRenderer sampleGroup failingWorld = Some w' /\
    instancedDraws (calls w') = [2]%nat /\
    (forall a, geometries (heap w') a = geometries (heap failingWorld) a) /\
    lockResults w' = [true].
Proof.
  destruct (BatchGroup_Draw_lock_failure 2 6 sampleRenderer sampleBuffer sampleGroup
              failingWorld 1 [true] eq_refl ltac:(discriminate) eq_refl eq_refl
              ltac:(simpl; lia) eq_refl ltac:(simpl; lia))
    as (w' & Hdraw & _ & Hsizes & Hgeom & _ & _ & Hlocks).
  exists w'. repeat split; assumption.
Defined.

(** ** Drawing a batch without shaders *)

(** C2 (amended).  For a batch whose vertex or pixel shader is unset,
    [Prepare] changes nothing, and [Draw] still has the geometry drawn:
    its whole effect is that one geometry draw call. *)
Theorem Batch_Draw_without_shaders :
  forall (batch : Batch) (w : World),
  vertexShader_ batch = 0 \/ pixelShader_ batch = 0 ->
  (forall setModelTransform, Batch_Prepare batch setModelTransform w = w) /\
  Batch_Draw batch w = emit (GeometryDraw (geometry_ batch)) w /\
  calls (Batch_Draw batch w) = calls w ++ [GeometryDraw (geometry_ batch)] /\
  filter isDrawCall (calls (Batch_Draw batch w)) =
    filter isDrawCall (calls w) ++ [GeometryDraw (geometry_ batch)] /\
  heap (Batch_Draw batch w) = heap w /\
  lockResults (Batch_Draw batch w) = lockResults w.
Proof.
  intros batch w Hshader.
  assert (Hprep : forall s, Batch_Prepare batch s w = w).
  { intros s. unfold Batch_Prepare.
    destruct Hshader as [-> | ->]; simpl; [reflexivity |].
    now rewrite orb_true_r. }
  split; [exact Hprep |].
  unfold Batch_Draw. rewrite Hprep. simpl.
  rewrite filter_app. simpl. auto.
Qed.

(** The amended C2 on the sample batch without a vertex shader. *)
Lemma Batch_Draw_without_shaders_witness :
  vertexShader_ shaderlessBatch = 0 /\
  calls (Batch_Draw shaderlessBatch sampleWorld) = [GeometryDraw 640].
Proof.
  split; [reflexivity |].
  exact (proj1 (proj2 (proj2
           (Batch_Draw_without_shaders shaderlessBatch sampleWorld
              (or_introl eq_refl))))).
Defined.

(** C2 as stated fails: the sample batch has no vertex shader, [Prepare]
    leaves the world as it is, and [Draw] does not: a draw call for the
    batch's geometry is issued. *)
Lemma Batch_Draw_noop_counterexample :
  vertexShader_ shaderlessBatch = 0 /\
  Batch_Prepare shaderlessBatch true sampleWorld = sampleWorld /\
  filter isDrawCall (calls sampleWorld) = [] /\
  filter isDrawCall (calls (Batch_Draw shaderlessBatch sampleWorld)) =
    [GeometryDraw (geometry_ shaderlessBatch)] /\
  Batch_Draw shaderlessBatch sampleWorld <> sampleWorld.
Proof.
  repeat split; try reflexivity.
  intros H. apply (f_equal calls) in H. discriminate H.
Qed.

(** ** The model on the sample inputs *)

Example sampleQueue_loose :
  map distance_ (batches_ sampleQueue) = [10; 1; 4].
Proof. reflexivity. Qed.

Example sampleQueue_groups :
  map (fun kg => map i_distance_ (g_instances_ (snd kg))) (batchGroups_ sampleQueue)
    = [[5; 1; 3]] /\
  map (fun kg => map i_distance_ (g_instances_ (snd kg))) (priorityBatchGroups_ sampleQueue)
    = [[7]].
Proof. split; reflexivity. Qed.

Example sampleBatch_sortKey :
  sortKey_ nearPriority = 0x800000800040000a /\
  sortKey_ farPlain = 0x000000800040000a.
Proof. split; reflexivity. Qed.

Example sampleQueue_frontToBack :
  map distance_ (looseSubmissionOrder (SortFrontToBack InsertionSort sampleQueue))
    = [1; 4; 10].
Proof. reflexivity. Qed.

Example sampleQueue_backToFront :
  map distance_ (looseSubmissionOrder (SortBackToFront InsertionSort sampleQueue))
    = [10; 4; 1].
Proof. reflexivity. Qed.

Example sampleQueue_numInstances :
  GetNumInstances sampleRenderer sampleHeap sampleQueue = 3 /\
  snd (BatchQueue_SetTransforms sampleRenderer sampleHeap sampleQueue [] 10) = 13 /\
  snd (fst (BatchQueue_SetTransforms sampleRenderer sampleHeap sampleQueue [] 10))
    = [(12, [1128]); (11, [1064]); (10, [1000])].
Proof. repeat split; reflexivity. Qed.

Example sampleGroup_draw :
  option_map (fun w => instancedDraws (calls w))
    (BatchGroup_Draw 2 6 sampleRenderer sampleGroup sampleWorld) = Some [2; 2; 1]%nat /\
  option_map (fun w => instancedDraws (calls w))
    (BatchGroup_Draw 2 6 sampleRenderer sampleGroup failingWorld) = Some [2]%nat /\
  option_map (fun w => filter isDrawCall (calls w))
    (BatchGroup_Draw 2 6 (mkRenderer 2 10000 None) sampleGroup sampleWorld) =
    Some (repeat (Draw 4 0 36 0 24) 5).
Proof. repeat split; reflexivity. Qed.

(** * Further properties *)

(** ** The sort key as an ordering of render state *)

Section SortKeyOrder.

Variables sL sP sM sG : Z.

Lemma keyFields_bounds (b : Batch) :
  0 <= Z.b2z (hasPriority_ b) <= 1 /\
  0 <= lightQueueField sL b < 2 ^ 15 /\ 0 <= passField sP b < 2 ^ 16 /\
  0 <= materialField sM b < 2 ^ 16 /\ 0 <= geometryField sG b < 2 ^ 16.
Proof.
  pose proof (lightQueueField_range sL b). pose proof (passField_range sP b).
  pose proof (materialField_range sM b). pose proof (geometryField_range sG b).
  destruct (hasPriority_ b); simpl; lia.
Qed.

Lemma geometryField_mod (b : Batch) :
  geometryField sG b = (low32 (geometry_ b) / sG) mod 2 ^ 16.
Proof.
  unfold geometryField. change 0xffff with (Z.ones 16).
  now rewrite Z.land_ones by lia.
Qed.

Lemma sortKey_same_state (b b' : Batch) :
  sameStateButGeometry b b' ->
  geometryField sG b' = geometryField sG b ->
  sortKey_ (CalculateSortKey sL sP sM sG b') = sortKey_ (CalculateSortKey sL sP sM sG b).
Proof.
  intros (Hl & Hp & Hm & Hpr) Hg. rewrite !sortKey_sum.
  unfold lightQueueField, passField, materialField.
  now rewrite Hl, Hp, Hm, Hpr, Hg.
Qed.

Lemma sortKey_geometry_differs (b b' : Batch) :
  geometryField sG b' <> geometryField sG b ->
  sortKey_ (CalculateSortKey sL sP sM sG b') <> sortKey_ (CalculateSortKey sL sP sM sG b).
Proof.
  intros Hg. rewrite !sortKey_sum.
  pose proof (keyFields_bounds b). pose proof (keyFields_bounds b'). lia.
Qed.

End SortKeyOrder.

(** X1.  Comparing two computed sort keys is comparing the tuples
    (priority, light queue, pass, material, geometry) of their fields
    lexicographically, and two keys are equal exactly when all five
    fields are. *)
Theorem sortKey_lexicographic :
  forall (sL sP sM sG : Z) (b1 b2 : Batch),
  let k1 := sortKey_ (CalculateSortKey sL sP sM sG b1) in
  let k2 := sortKey_ (CalculateSortKey sL sP sM sG b2) in
  (k1 < k2 <-> lexLt (keyFields sL sP sM sG b1) (keyFields sL sP sM sG b2)) /\
  (k1 = k2 <-> keyFields sL sP sM sG b1 = keyFields sL sP sM sG b2).
Proof.
  intros sL sP sM sG b1 b2 k1 k2. subst k1 k2. rewrite !sortKey_sum.
  pose proof (keyFields_bounds sL sP sM sG b1) as H1.
  pose proof (keyFields_bounds sL sP sM sG b2) as H2.
  unfold keyFields, lexLt.
  set (p1 := Z.b2z (hasPriority_ b1)) in *. set (p2 := Z.b2z (hasPriority_ b2)) in *.
  set (l1 := lightQueueField sL b1) in *. set (l2 := lightQueueField sL b2) in *.
  set (a1 := passField sP b1) in *. set (a2 := passField sP b2) in *.
  set (m1 := materialField sM b1) in *. set (m2 := materialField sM b2) in *.
  set (g1 := geometryField sG b1) in *. set (g2 := geometryField sG b2) in *.
  split; [lia |]. split.
  - intros H. assert (p1 = p2 /\ l1 = l2 /\ a1 = a2 /\ m1 = m2 /\ g1 = g2) by lia.
    destruct H0 as (-> & -> & -> & -> & ->). reflexivity.
  - intros H. injection H as -> -> -> -> ->. reflexivity.
Qed.

(** X2.  The geometry field wraps after 65536 objects: two batches in the
    same state whose geometries lie 65536 object sizes apart get the same
    sort key. *)
Theorem sortKey_aliasing :
  forall (sL sP sM sG : Z) (b b' : Batch),
  0 < sG ->
  0 <= geometry_ b ->
  geometry_ b' = geometry_ b + 65536 * sG ->
  geometry_ b' < 2 ^ 32 ->
  sameStateButGeometry b b' ->
  geometry_ b' <> geometry_ b /\
  sortKey_ (CalculateSortKey sL sP sM sG b') = sortKey_ (CalculateSortKey sL sP sM sG b).
Proof.
  intros sL sP sM sG b b' Hs H0 Hg Hlt Hsame.
  split; [lia |].
  apply sortKey_same_state; [exact Hsame |].
  rewrite !geometryField_mod. unfold low32.
  rewrite (Z.mod_small (geometry_ b')) by lia.
  rewrite (Z.mod_small (geometry_ b)) by lia.
  rewrite Hg, Z.div_add by lia.
  change 65536 with (1 * 2 ^ 16). now rewrite Z_mod_plus_full.
Qed.

(** X3.  Within a pool of objects laid out one object size apart, two
    different geometries fewer than 65536 objects apart get different
    geometry fields, hence different sort keys. *)
Theorem sortKey_separates_pool :
  forall (sL sP sM sG base i j : Z) (b1 b2 : Batch),
  0 < sG -> 0 <= base -> 0 <= i -> 0 <= j ->
  geometry_ b1 = base + i * sG -> geometry_ b2 = base + j * sG ->
  geometry_ b1 < 2 ^ 32 -> geometry_ b2 < 2 ^ 32 ->
  i <> j -> Z.abs (i - j) < 65536 ->
  geometryField sG b1 <> geometryField sG b2 /\
  sortKey_ (CalculateSortKey sL sP sM sG b1) <> sortKey_ (CalculateSortKey sL sP sM sG b2).
Proof.
  intros sL sP sM sG base i j b1 b2 Hs Hb Hi Hj H1 H2 L1 L2 Hne Habs.
  assert (Hg : geometryField sG b1 <> geometryField sG b2).
  { rewrite !geometryField_mod. unfold low32.
    assert (0 <= i * sG /\ 0 <= j * sG) as [? ?] by (split; apply Z.mul_nonneg_nonneg; lia).
    rewrite (Z.mod_small (geometry_ b1)) by lia.
    rewrite (Z.mod_small (geometry_ b2)) by lia.
    rewrite H1, H2, !Z.div_add by lia.
    set (q := base / sG). intros Heq.
    assert (Hdiv : ((q + i) - (q + j)) mod 2 ^ 16 = 0).
    { rewrite Zminus_mod, Heq, Z.sub_diag. reflexivity. }
    replace (q + i - (q + j)) with (i - j) in Hdiv by lia.
    apply Z.mod_divide in Hdiv; [| lia]. destruct Hdiv as [c Hc].
    lia. }
  split; [exact Hg |]. now apply sortKey_geometry_differs.
Qed.

(** X2 on [farPlain] and the batch 65536 geometries further. *)
Lemma sortKey_aliasing_witness :
  geometry_ aliasedBatch <> geometry_ farPlain /\
  sortKey_ (CalculateSortKey 64 64 64 64 aliasedBatch) =
  sortKey_ (CalculateSortKey 64 64 64 64 farPlain).
Proof.
  apply (sortKey_aliasing 64 64 64 64 farPlain aliasedBatch).
  - lia.
  - simpl. lia.
  - reflexivity.
  - simpl. lia.
  - repeat split.
Defined.

(** X3 on two sample batches whose geometries are objects 10 and 20 of a
    pool at address 0. *)
Lemma sortKey_separates_pool_witness :
  geometryField 64 farPlain <> geometryField 64 (sampleBatch 4 1280 1256 false) /\
  sortKey_ (CalculateSortKey 64 64 64 64 farPlain) <>
  sortKey_ (CalculateSortKey 64 64 64 64 (sampleBatch 4 1280 1256 false)).
Proof.
  apply (sortKey_separates_pool 64 64 64 64 0 10 20); simpl; try lia; reflexivity.
Defined.

(** ** The comparison functions *)

(** X4.  Each of the four comparison functions is a strict weak ordering
    (irreflexive, transitive, with transitive incomparability), as a
    comparison sort needs; two batches that neither function puts before
    the other have the same sort key and the same distance. *)
Theorem comparisons_strict_weak :
  StrictWeakOrder CompareBatchesFrontToBack /\
  StrictWeakOrder CompareBatchesBackToFront /\
  StrictWeakOrder CompareInstancesFrontToBack /\
  StrictWeakOrder CompareBatchGroupsFrontToBack /\
  (forall a b,
     CompareBatchesFrontToBack a b = false -> CompareBatchesFrontToBack b a = false ->
     sortKey_ a = sortKey_ b /\ distance_ a = distance_ b) /\
  (forall a b,
     CompareBatchesBackToFront a b = false -> CompareBatchesBackToFront b a = false ->
     sortKey_ a = sortKey_ b /\ distance_ a = distance_ b).
Proof.
  split; [apply CompareBatchesFrontToBack_swo |].
  split; [apply CompareBatchesBackToFront_swo |].
  split; [apply CompareInstancesFrontToBack_swo |].
  split; [apply CompareBatchGroupsFrontToBack_swo |].
  split; intros a b H1 H2.
  - unfold CompareBatchesFrontToBack in *. cmp_cases.
  - unfold CompareBatchesBackToFront in *. cmp_cases.
Qed.

(** X5.  On computed sort keys the front-to-back comparison puts a batch
    with the priority flag before one without it whatever their
    distances; the back-to-front comparison does so only at equal
    distance, and otherwise puts the farther batch first. *)
Theorem comparisons_and_priority :
  forall (sL sP sM sG : Z) (a b : Batch),
  sortKeyComputed sL sP sM sG a -> sortKeyComputed sL sP sM sG b ->
  hasPriority_ a = true -> hasPriority_ b = false ->
  CompareBatchesFrontToBack a b = true /\
  CompareBatchesFrontToBack b a = false /\
  CompareBatchesBackToFront a b = (distance_ a >=? distance_ b) /\
  CompareBatchesBackToFront b a = (distance_ b >? distance_ a).
Proof.
  intros sL sP sM sG a b Ka Kb Ha Hb.
  pose proof (sortKey_priority_lt sL sP sM sG a b Ha Hb) as Hlt.
  unfold sortKeyComputed in Ka, Kb. rewrite <- Ka, <- Kb in Hlt.
  unfold CompareBatchesFrontToBack, CompareBatchesBackToFront.
  rewrite Z.geb_leb.
  repeat split; cmp_cases;
    repeat match goal with
    | |- context [?x <=? ?y] => destruct (Z.leb_spec x y)
    end; try reflexivity; lia.
Qed.

(** X5 on the near priority batch and the far batch without priority. *)
Lemma comparisons_and_priority_witness :
  CompareBatchesFrontToBack nearPriority farPlain = true /\
  CompareBatchesFrontToBack farPlain nearPriority = false /\
  CompareBatchesBackToFront nearPriority farPlain =
    (distance_ nearPriority >=? distance_ farPlain) /\
  CompareBatchesBackToFront farPlain nearPriority =
    (distance_ farPlain >? distance_ nearPriority).
Proof.
  apply (comparisons_and_priority 64 64 64 64 nearPriority farPlain); reflexivity.
Defined.

(** ** What [AddBatch] keeps *)

Lemma totalInstances_Insert (k : BatchGroupKey) (g : BatchGroup) (m : Map) :
  Map_Find k m = None ->
  totalInstances (Map_Insert k g m) = (length (g_instances_ g) + totalInstances m)%nat.
Proof.
  unfold totalInstances.
  induction m as [| [k1 g1] m IH]; simpl; intros Hfind; [reflexivity |].
  destruct (BatchGroupKey_eqb k k1); [discriminate |].
  destruct (BatchGroupKey_ltb k k1); simpl; [reflexivity |].
  rewrite IH by exact Hfind. lia.
Qed.

Lemma totalInstances_push (k : BatchGroupKey) (i : InstanceData) (g : BatchGroup) (m : Map) :
  Map_Find k m = Some g ->
  totalInstances (Map_Update k (pushInstance i) m) = S (totalInstances m).
Proof.
  unfold totalInstances.
  induction m as [| [k1 g1] m IH]; simpl; intros Hfind; [discriminate |].
  destruct (BatchGroupKey_eqb k k1); simpl.
  - rewrite length_app. simpl. lia.
  - rewrite IH by exact Hfind. lia.
Qed.

Lemma totalInstances_addToGroups (batch : Batch) (m : Map) :
  totalInstances (addToGroups batch m) = S (totalInstances m).
Proof.
  unfold addToGroups.
  destruct (Map_Find (keyOf batch) m) as [g |] eqn:Hfind.
  - now apply totalInstances_push with g.
  - now rewrite totalInstances_Insert.
Qed.

Lemma Forall_Map_Insert (P : BatchGroupKey * BatchGroup -> Prop)
    (k : BatchGroupKey) (g : BatchGroup) (m : Map) :
  P (k, g) -> Forall P m -> Forall P (Map_Insert k g m).
Proof.
  intros Hp. induction 1 as [| [k1 g1] m H1 Hm IH]; simpl.
  - now constructor.
  - destruct (BatchGroupKey_eqb k k1); [now constructor |].
    destruct (BatchGroupKey_ltb k k1); constructor; auto.
Qed.

Lemma Forall_Map_Update (P : BatchGroupKey * BatchGroup -> Prop)
    (k : BatchGroupKey) (f : BatchGroup -> BatchGroup) (m : Map) :
  (forall k' g', P (k', g') -> P (k', f g')) ->
  Forall P m -> Forall P (Map_Update k f m).
Proof.
  intros Hf. induction 1 as [| [k1 g1] m H1 Hm IH]; simpl.
  - constructor.
  - destruct (BatchGroupKey_eqb k k1); constructor; auto.
Qed.

Lemma addToGroups_wellFormed (batch : Batch) (m : Map) :
  Forall groupWellFormed m -> Forall groupWellFormed (addToGroups batch m).
Proof.
  intros Hm. unfold addToGroups.
  destruct (Map_Find (keyOf batch) m).
  - apply Forall_Map_Update; [| exact Hm].
    intros k' g' (Hne & Hkey & Hstart). unfold groupWellFormed; simpl.
    repeat split; try assumption.
    destruct (g_instances_ g'); discriminate.
  - apply Forall_Map_Insert; [| exact Hm].
    unfold groupWellFormed; simpl. repeat split. discriminate.
Qed.

(** X6.  [AddBatch] files every batch exactly once: each call raises by
    one the number of batches the queue holds, loose batches and group
    instances together, so a sequence of calls raises it by the number
    of calls and a cleared queue then holds as many as were added. *)
Theorem AddBatch_counts :
  forall (GEOM_STATIC : Z) (calls : list (Batch * bool)) (q q0 : BatchQueue),
  (forall batch noInstancing,
     queueSize (AddBatch GEOM_STATIC batch noInstancing q) = S (queueSize q)) /\
  queueSize (AddBatches GEOM_STATIC calls q) = (queueSize q + length calls)%nat /\
  queueSize (AddBatches GEOM_STATIC calls (Clear q0)) = length calls.
Proof.
  intros G calls q q0.
  assert (Hstep : forall q batch noInstancing,
            queueSize (AddBatch G batch noInstancing q) = S (queueSize q)).
  { intros q1 batch ni. unfold AddBatch, queueSize.
    destruct (notInstanceable G batch ni); simpl.
    - rewrite length_app. simpl. lia.
    - destruct (hasPriority_ batch); simpl;
        rewrite totalInstances_addToGroups; lia. }
  assert (Hall : forall q, queueSize (AddBatches G calls q)
                           = (queueSize q + length calls)%nat).
  { induction calls as [| c calls IH] using rev_ind; intros q1.
    - simpl. lia.
    - rewrite AddBatches_snoc, Hstep, IH, length_app. simpl. lia. }
  split; [apply Hstep |]. split; [apply Hall |].
  rewrite Hall. reflexivity.
Qed.

(** X7.  Whatever is added to a cleared queue, every group of either
    map has at least one instance, is stored under the key made of its
    own light queue, pass, material and geometry, and has its start
    index at the sentinel; [AddBatch] keeps these on any queue that has
    them. *)
Theorem AddBatch_groups_wellFormed :
  forall (GEOM_STATIC : Z) (calls : list (Batch * bool)) (q0 : BatchQueue),
  (forall q batch noInstancing,
     Forall groupWellFormed (priorityBatchGroups_ q) /\
     Forall groupWellFormed (batchGroups_ q) ->
     Forall groupWellFormed
       (priorityBatchGroups_ (AddBatch GEOM_STATIC batch noInstancing q)) /\
     Forall groupWellFormed
       (batchGroups_ (AddBatch GEOM_STATIC batch noInstancing q))) /\
  Forall groupWellFormed
    (priorityBatchGroups_ (AddBatches GEOM_STATIC calls (Clear q0))) /\
  Forall groupWellFormed
    (batchGroups_ (AddBatches GEOM_STATIC calls (Clear q0))).
Proof.
  intros G calls q0.
  assert (Hstep : forall q batch noInstancing,
     Forall groupWellFormed (priorityBatchGroups_ q) /\
     Forall groupWellFormed (batchGroups_ q) ->
     Forall groupWellFormed (priorityBatchGroups_ (AddBatch G batch noInstancing q)) /\
     Forall groupWellFormed (batchGroups_ (AddBatch G batch noInstancing q))).
  { intros q batch ni [Hp Hn]. unfold AddBatch.
    destruct (notInstanceable G batch ni); simpl; [now split |].
    destruct (hasPriority_ batch); simpl; split;
      try assumption; now apply addToGroups_wellFormed. }
  split; [exact Hstep |].
  induction calls as [| c calls IH] using rev_ind.
  - simpl. split; constructor.
  - rewrite AddBatches_snoc. now apply Hstep.
Qed.

(** ** What the sorts keep *)

Lemma map_nth_all {A : Type} (l : list A) (d : A) :
  map (fun i => nth i l d) (seq 0 (length l)) = l.
Proof.
  induction l as [| x l IH]; simpl; [reflexivity |].
  f_equal. rewrite <- seq_shift, map_map. exact IH.
Qed.

Lemma filter_split_perm {A : Type} (f : A -> bool) (l : list A) :
  Permutation l (filter f l ++ filter (fun x => negb (f x)) l).
Proof.
  induction l as [| x l IH]; simpl; [constructor |].
  destruct (f x); simpl.
  - now constructor.
  - now apply Permutation_cons_app.
Qed.

Lemma Map_Find_of_key (k : BatchGroupKey) (m : Map) :
  In k (Map_keys m) -> exists g, Map_Find k m = Some g /\ In (k, g) m.
Proof.
  induction m as [| [k1 g1] m IH]; simpl; [tauto |].
  intros Hin. destruct (BatchGroupKey_eqb_spec k k1) as [-> | Hne].
  - exists g1. auto.
  - destruct Hin as [H | H]; [congruence |].
    destruct (IH H) as (g & Hf & Hg). exists g. auto.
Qed.

Section SortInvariants.

Variable Sort : forall A : Type, (A -> A -> bool) -> list A -> list A.
Hypothesis Sort_ok : SortContract Sort.

Lemma sortInstances_In (m : Map) (k : BatchGroupKey) (g' : BatchGroup) :
  In (k, g') (sortInstances Sort m) ->
  exists g, In (k, g) m /\
    g' = set_instances g
           (Sort InstanceData CompareInstancesFrontToBack (g_instances_ g)).
Proof.
  unfold sortInstances. rewrite in_map_iff.
  intros ([k1 g1] & Heq & Hin). simpl in Heq. injection Heq as <- <-.
  now exists g1.
Qed.

Lemma sorted_instances_head (l : list InstanceData) :
  l <> [] ->
  exists first,
    hd_error (Sort InstanceData CompareInstancesFrontToBack l) = Some first /\
    forall i, In i (Sort InstanceData CompareInstancesFrontToBack l) ->
      i_distance_ first <= i_distance_ i.
Proof.
  intros Hne.
  pose proof (Sort_perm Sort Sort_ok CompareInstancesFrontToBack l
                CompareInstancesFrontToBack_swo) as Hperm.
  pose proof (Sort_pairs Sort Sort_ok CompareInstancesFrontToBack l
                CompareInstancesFrontToBack_swo) as Hpairs.
  destruct (Sort InstanceData CompareInstancesFrontToBack l) as [| x s] eqn:Hs.
  - apply Permutation_sym, Permutation_nil in Hperm. contradiction.
  - exists x. split; [reflexivity |].
    intros i [<- | Hin]; [lia |].
    apply In_nth_error in Hin. destruct Hin as [n Hn].
    specialize (Hpairs 0%nat (S n) x i ltac:(lia) eq_refl Hn).
    unfold CompareInstancesFrontToBack in Hpairs. cmp_cases.
Qed.

Lemma sorted_view_points (m : Map) (view : list BatchGroupKey) :
  Forall groupWellFormed m ->
  Permutation (Map_keys (sortInstances Sort m)) view ->
  Forall (pointsToNearestFirst (sortInstances Sort m)) view.
Proof.
  intros Hwf Hperm. rewrite Forall_forall. intros k Hk.
  apply (Permutation_in k (Permutation_sym Hperm)) in Hk.
  destruct (Map_Find_of_key k _ Hk) as (g' & Hfind & Hin').
  destruct (sortInstances_In _ _ _ Hin') as (g & Hin & ->).
  rewrite Forall_forall in Hwf. destruct (Hwf _ Hin) as (Hne & _). simpl in Hne.
  destruct (sorted_instances_head (g_instances_ g) Hne) as (first & Hhd & Hmin).
  exists (set_instances g (Sort InstanceData CompareInstancesFrontToBack (g_instances_ g))),
         first.
  simpl. auto.
Qed.

Lemma countInstances_sortInstances (renderer : Renderer) (h : Heap) (m : Map) (total : Z) :
  Map_countInstances renderer h (sortInstances Sort m) total =
  Map_countInstances renderer h m total.
Proof.
  revert total. induction m as [| [k g] m IH]; intros total; simpl; [reflexivity |].
  assert (Hsize : Size (Sort InstanceData CompareInstancesFrontToBack (g_instances_ g))
                  = Size (g_instances_ g)).
  { unfold Size. f_equal. symmetry. apply Permutation_length.
    apply Sort_perm; [exact Sort_ok | apply CompareInstancesFrontToBack_swo]. }
  rewrite Hsize, !IH. reflexivity.
Qed.

End SortInvariants.

(** X8.  Either sort lists every loose batch exactly once: the
    submission order of the loose batches is a rearrangement of
    [batches_], after [SortFrontToBack] as after [SortBackToFront]. *)
Theorem sorts_submit_each_loose_batch_once :
  forall Sort : (forall A : Type, (A -> A -> bool) -> list A -> list A),
  SortContract Sort ->
  forall q : BatchQueue,
  Permutation (batches_ q) (looseSubmissionOrder (SortFrontToBack Sort q)) /\
  Permutation (batches_ q) (looseSubmissionOrder (SortBackToFront Sort q)).
Proof.
  intros Sort Hsort q.
  assert (HF : StrictWeakOrder
            (fun i j => CompareBatchesFrontToBack (batchAt q i) (batchAt q j)))
    by apply (swo_pullback (batchAt q)), CompareBatchesFrontToBack_swo.
  assert (HB : StrictWeakOrder
            (fun i j => CompareBatchesBackToFront (batchAt q i) (batchAt q j)))
    by apply (swo_pullback (batchAt q)), CompareBatchesBackToFront_swo.
  unfold looseSubmissionOrder. simpl.
  split.
  - rewrite <- (map_nth_all (batches_ q) Batch_default) at 1.
    apply (Permutation_map (batchAt q)).
    eapply perm_trans; [apply (filter_split_perm (fun i => hasPriority_ (batchAt q i))) |].
    apply Permutation_app; apply Sort_perm; assumption.
  - rewrite <- (map_nth_all (batches_ q) Batch_default) at 1.
    apply (Permutation_map (batchAt q)).
    apply Sort_perm; assumption.
Qed.

(** X8 on the sample queue under insertion sort. *)
Lemma sorts_submit_each_loose_batch_once_witness :
  SortContract InsertionSort /\
  Permutation (batches_ sampleQueue)
    (looseSubmissionOrder (SortFrontToBack InsertionSort sampleQueue)).
Proof.
  split; [exact InsertionSort_contract |].
  exact (proj1 (sorts_submit_each_loose_batch_once InsertionSort
                  InsertionSort_contract sampleQueue)).
Defined.

(** X9.  After [SortFrontToBack] of a queue whose groups are as
    [AddBatch] makes them, every pointer of the two sorted group lists
    points to a group of its map, that group's first instance exists (the
    read of [instances_[0]] by the group comparison is in range) and no
    instance of the group is nearer than it. *)
Theorem SortFrontToBack_groups_nearest_first :
  forall Sort : (forall A : Type, (A -> A -> bool) -> list A -> list A),
  SortContract Sort ->
  forall q : BatchQueue,
  Forall groupWellFormed (priorityBatchGroups_ q) ->
  Forall groupWellFormed (batchGroups_ q) ->
  let q' := SortFrontToBack Sort q in
  Forall (pointsToNearestFirst (priorityBatchGroups_ q')) (sortedPriorityBatchGroups_ q') /\
  Forall (pointsToNearestFirst (batchGroups_ q')) (sortedBatchGroups_ q').
Proof.
  intros Sort Hsort q Hp Hn q'.
  assert (Hgrp : forall m, StrictWeakOrder
            (fun k1 k2 => CompareBatchGroupsFrontToBack (groupAt m k1) (groupAt m k2)))
    by (intros m; apply (swo_pullback (groupAt m)), CompareBatchGroupsFrontToBack_swo).
  split; apply sorted_view_points; try assumption; apply Sort_perm; auto.
Qed.

Lemma sampleQueue_wellFormed :
  Forall groupWellFormed (priorityBatchGroups_ sampleQueue) /\
  Forall groupWellFormed (batchGroups_ sampleQueue).
Proof.
  split; repeat constructor; discriminate.
Qed.

(** X9 on the sample queue under insertion sort. *)
Lemma SortFrontToBack_groups_nearest_first_witness :
  SortContract InsertionSort /\
  Forall (pointsToNearestFirst (batchGroups_ (SortFrontToBack InsertionSort sampleQueue)))
    (sortedBatchGroups_ (SortFrontToBack InsertionSort sampleQueue)).
Proof.
  split; [exact InsertionSort_contract |].
  refine (proj2 (SortFrontToBack_groups_nearest_first InsertionSort
                   InsertionSort_contract sampleQueue _ _)).
  - exact (proj1 sampleQueue_wellFormed).
  - exact (proj2 sampleQueue_wellFormed).
Defined.

(** X10.  Sorting does not change how much instancing-buffer space the
    queue asks for: [GetNumInstances] returns the same count after
    [SortFrontToBack] and after [SortBackToFront] as before. *)
Theorem GetNumInstances_after_sort :
  forall Sort : (forall A : Type, (A -> A -> bool) -> list A -> list A),
  SortContract Sort ->
  forall (renderer : Renderer) (h : Heap) (q : BatchQueue),
  GetNumInstances renderer h (SortFrontToBack Sort q) = GetNumInstances renderer h q /\
  GetNumInstances renderer h (SortBackToFront Sort q) = GetNumInstances renderer h q.
Proof.
  intros Sort Hsort renderer h q. split; [| reflexivity].
  unfold GetNumInstances. simpl.
  now rewrite !countInstances_sortInstances.
Qed.

(** X10 on the sample queue under insertion sort. *)
Lemma GetNumInstances_after_sort_witness :
  SortContract InsertionSort /\
  GetNumInstances sampleRenderer sampleHeap (SortFrontToBack InsertionSort sampleQueue) =
  GetNumInstances sampleRenderer sampleHeap sampleQueue.
Proof.
  split; [exact InsertionSort_contract |].
  exact (proj1 (GetNumInstances_after_sort InsertionSort InsertionSort_contract
                  sampleRenderer sampleHeap sampleQueue)).
Defined.

(** ** Allocation of the instancing buffer among the groups *)

Lemma nth_error_Some_lt {A : Type} (l : list A) (i : nat) (x : A) :
  nth_error l i = Some x -> (i < length l)%nat.
Proof. intros H. apply nth_error_Some. congruence. Qed.

Section AllocationFacts.

Variable renderer : Renderer.
Variable h : Heap.

Lemma allocated_weaken (data data' : LockedData) (lo lo' hi hi' : Z)
    (before after : BatchGroupKey * BatchGroup) :
  lo' <= lo -> hi <= hi' ->
  (forall slot, lo <= slot < hi -> readSlot data' slot = readSlot data slot) ->
  allocated renderer h data lo hi before after ->
  allocated renderer h data' lo' hi' before after.
Proof.
  intros Hlo Hhi Hsame [Hk Hg]. split; [exact Hk |].
  destruct (notInstanced renderer h (snd before)); [exact Hg |].
  destruct Hg as (Hs & H1 & H2 & Hread).
  repeat split; try lia; try assumption.
  intros i inst Hi. rewrite Hsame; [now apply Hread |].
  apply nth_error_Some_lt in Hi. unfold Size in H2. lia.
Qed.

Lemma Forall2_allocated_weaken (data data' : LockedData) (lo lo' hi hi' : Z) (m m' : Map) :
  lo' <= lo -> hi <= hi' ->
  (forall slot, lo <= slot < hi -> readSlot data' slot = readSlot data slot) ->
  Forall2 (allocated renderer h data lo hi) m m' ->
  Forall2 (allocated renderer h data' lo' hi') m m'.
Proof.
  intros Hlo Hhi Hsame. induction 1; constructor; auto.
  eapply allocated_weaken; eassumption.
Qed.

Lemma Map_SetTransforms_allocated (m : Map) (data : LockedData) (c : Z) :
  0 <= c -> c + eligibleInstances renderer h m < 2 ^ 32 ->
  let r := Map_SetTransforms renderer h m data c in
  snd r = c + eligibleInstances renderer h m /\
  (forall slot, slot < c \/ snd r <= slot ->
     readSlot (snd (fst r)) slot = readSlot data slot) /\
  Forall2 (allocated renderer h (snd (fst r)) c (snd r)) m (fst (fst r)).
Proof.
  revert data c. induction m as [| [k g] m IH]; intros data c Hc Hfit; simpl.
  - split; [lia |]. split; [reflexivity | constructor].
  - simpl in Hfit. pose proof (eligibleInstances_nonneg renderer h m) as He.
    pose proof (Size_nonneg (g_instances_ g)) as Hn.
    unfold BatchGroup_SetTransforms.
    destruct (notInstanced renderer h g) eqn:Hni.
    + specialize (IH data c Hc ltac:(lia)). simpl in IH.
      destruct (Map_SetTransforms renderer h m data c) as [[m1 d1] c1]. simpl in *.
      destruct IH as (Hc1 & Hout & Hall).
      split; [lia |]. split; [exact Hout |].
      constructor; [| exact Hall].
      split; [reflexivity |]. simpl. now rewrite Hni.
    + rewrite (wrap32_small (c + Size (g_instances_ g))) by lia.
      specialize (IH (writeTransforms h (g_instances_ g) c data)
                     (c + Size (g_instances_ g)) ltac:(lia) ltac:(lia)).
      simpl in IH.
      destruct (Map_SetTransforms renderer h m
                  (writeTransforms h (g_instances_ g) c data)
                  (c + Size (g_instances_ g))) as [[m1 d1] c1]. simpl in *.
      destruct IH as (Hc1 & Hout & Hall).
      split; [lia |]. split.
      * intros slot Hslot. rewrite Hout by lia.
        apply writeTransforms_outside. lia.
      * constructor.
        -- split; [reflexivity |]. simpl. rewrite Hni.
           split; [reflexivity |]. split; [lia |]. split; [lia |].
           intros i inst Hi. rewrite Hout.
           ++ now apply writeTransforms_inside.
           ++ left. apply nth_error_Some_lt in Hi. unfold Size. lia.
        -- eapply Forall2_allocated_weaken; [| | | exact Hall]; try lia.
           intros slot _. reflexivity.
Qed.

Lemma Map_SetTransforms_noop (m : Map) (data : LockedData) (c : Z) :
  Forall (fun kg => notInstanced renderer h (snd kg) = true) m ->
  Map_SetTransforms renderer h m data c = (m, data, c) /\
  (forall total, Map_countInstances renderer h m total = total).
Proof.
  induction 1 as [| [k g] m Hg Hm [IH1 IH2]]; simpl; [auto |].
  simpl in Hg. unfold BatchGroup_SetTransforms. rewrite Hg, IH1.
  split; [reflexivity |]. intros total.
  assert (Hcond : (Size (g_instances_ g) >=? minGroupSize renderer) &&
                  (GetIndexCount (geometries h (g_geometry_ g)) <=? maxIndexCount renderer)
                  = false).
  { unfold notInstanced in Hg. rewrite Z.gtb_ltb in Hg.
    rewrite Z.geb_leb, !Z.leb_antisym, <- negb_orb, Hg. reflexivity. }
  rewrite Hcond. apply IH2.
Qed.

Lemma Map_SetTransforms_keeps (m : Map) (data : LockedData) (c : Z) (total : Z) :
  let m' := fst (fst (Map_SetTransforms renderer h m data c)) in
  Forall2 onlyStartIndexChanged m m' /\
  Map_countInstances renderer h m' total = Map_countInstances renderer h m total.
Proof.
  revert data c total. induction m as [| [k g] m IH]; intros data c total; simpl.
  - split; [constructor | reflexivity].
  - unfold BatchGroup_SetTransforms.
    destruct (notInstanced renderer h g).
    + specialize (IH data c). simpl in IH.
      destruct (Map_SetTransforms renderer h m data c) as [[m1 d1] c1]. simpl in *.
      split.
      * constructor; [| apply (IH total)].
        split; [reflexivity |]. simpl. now destruct g.
      * destruct (_ && _); apply IH.
    + specialize (IH (writeTransforms h (g_instances_ g) c data)
                     (wrap32 (c + Size (g_instances_ g)))). simpl in IH.
      destruct (Map_SetTransforms renderer h m _ _) as [[m1 d1] c1]. simpl in *.
      split.
      * constructor; [| apply (IH total)]. split; reflexivity.
      * destruct (_ && _); apply IH.
Qed.

End AllocationFacts.

(** X11.  [BatchQueue::SetTransforms] from cursor [c], when the cursor
    and the space needed fit 32 bits: the cursor ends at [c] plus the
    space of the groups that take space; every such group, in the
    priority map and in the other, has become the owner of a run of
    slots inside [c .. c'), one per instance, and in the buffer as the
    whole call leaves it each slot holds the transform of its instance
    (no later group writes over an earlier one); groups that take no
    space are untouched, and so is every slot outside [c .. c'). *)
Theorem BatchQueue_SetTransforms_allocates :
  forall (renderer : Renderer) (h : Heap) (q : BatchQueue)
         (lockedData : LockedData) (c : Z),
  let needed := eligibleInstances renderer h (priorityBatchGroups_ q) +
                eligibleInstances renderer h (batchGroups_ q) in
  0 <= c -> c + needed < 2 ^ 32 ->
  let r := BatchQueue_SetTransforms renderer h q lockedData c in
  let q' := fst (fst r) in
  let data' := snd (fst r) in
  let c' := snd r in
  c' = c + needed /\
  (forall slot, slot < c \/ c' <= slot -> readSlot data' slot = readSlot lockedData slot) /\
  Forall2 (allocated renderer h data' c c') (priorityBatchGroups_ q) (priorityBatchGroups_ q') /\
  Forall2 (allocated renderer h data' c c') (batchGroups_ q) (batchGroups_ q') /\
  batches_ q' = batches_ q.
Proof.
  intros renderer h q lockedData c needed Hc Hfit r q' data' c'.
  subst r q' data' c' needed. unfold BatchQueue_SetTransforms.
  pose proof (eligibleInstances_nonneg renderer h (priorityBatchGroups_ q)) as P1.
  pose proof (eligibleInstances_nonneg renderer h (batchGroups_ q)) as P2.
  pose proof (Map_SetTransforms_allocated renderer h (priorityBatchGroups_ q)
                lockedData c Hc ltac:(lia)) as H1.
  destruct (Map_SetTransforms renderer h (priorityBatchGroups_ q) lockedData c)
    as [[pg d1] c1]. simpl in H1. destruct H1 as (C1 & O1 & A1).
  pose proof (Map_SetTransforms_allocated renderer h (batchGroups_ q) d1 c1
                ltac:(lia) ltac:(lia)) as H2.
  destruct (Map_SetTransforms renderer h (batchGroups_ q) d1 c1) as [[gs d2] c2].
  simpl in H2. destruct H2 as (C2 & O2 & A2). simpl.
  split; [lia |]. split.
  { intros slot Hslot. rewrite O2 by lia. apply O1. lia. }
  split.
  { eapply Forall2_allocated_weaken; [| | | exact A1]; try lia.
    intros slot Hslot. apply O2. lia. }
  split; [| reflexivity].
  eapply Forall2_allocated_weaken; [| | | exact A2]; try lia.
  intros slot _. reflexivity.
Qed.

(** X11 on the sample queue from cursor 10: the group of three instances
    owns the slots 10, 11, 12. *)
Lemma BatchQueue_SetTransforms_allocates_witness :
  snd (BatchQueue_SetTransforms sampleRenderer sampleHeap sampleQueue [] 10) = 10 + 3 /\
  Forall2
    (allocated sampleRenderer sampleHeap
       (snd (fst (BatchQueue_SetTransforms sampleRenderer sampleHeap sampleQueue [] 10)))
       10 13)
    (batchGroups_ sampleQueue)
    (batchGroups_ (fst (fst (BatchQueue_SetTransforms sampleRenderer sampleHeap
                               sampleQueue [] 10)))).
Proof.
  pose proof (BatchQueue_SetTransforms_allocates sampleRenderer sampleHeap sampleQueue
                [] 10 ltac:(lia) ltac:(simpl; lia)) as H.
  split; [exact (proj1 H) |].
  exact (proj1 (proj2 (proj2 (proj2 H)))).
Defined.

(** X12.  When no group of the queue takes buffer space (each is below
    the minimum size or over the index limit; an empty queue is one such),
    [GetNumInstances] is 0 and [SetTransforms] changes nothing: the
    queue, the buffer and the cursor are returned as given. *)
Theorem nothing_to_instance :
  forall (renderer : Renderer) (h : Heap) (q : BatchQueue)
         (lockedData : LockedData) (c : Z),
  Forall (fun kg => notInstanced renderer h (snd kg) = true) (priorityBatchGroups_ q) ->
  Forall (fun kg => notInstanced renderer h (snd kg) = true) (batchGroups_ q) ->
  GetNumInstances renderer h q = 0 /\
  BatchQueue_SetTransforms renderer h q lockedData c = (q, lockedData, c).
Proof.
  intros renderer h q lockedData c Hp Hn.
  destruct (Map_SetTransforms_noop renderer h _ lockedData c Hp) as [S1 N1].
  destruct (Map_SetTransforms_noop renderer h _ lockedData c Hn) as [S2 N2].
  split.
  - unfold GetNumInstances. now rewrite N1, N2.
  - unfold BatchQueue_SetTransforms. rewrite S1, S2. now destruct q.
Qed.

(** X12 on the sample queue when the minimum group size is 4. *)
Lemma nothing_to_instance_witness :
  GetNumInstances (mkRenderer 4 10000 (Some sampleBuffer)) sampleHeap sampleQueue = 0 /\
  BatchQueue_SetTransforms (mkRenderer 4 10000 (Some sampleBuffer)) sampleHeap
    sampleQueue [] 10 = (sampleQueue, [], 10).
Proof.
  apply nothing_to_instance; repeat constructor.
Defined.

(** X13.  [BatchQueue::SetTransforms] changes start indices and nothing
    else: each map has the same nodes under the same keys, each group its
    instances and shared fields, the loose batches and the four sorted
    views are as before; hence [GetNumInstances] returns afterwards what
    it returned before. *)
Theorem BatchQueue_SetTransforms_keeps :
  forall (renderer : Renderer) (h : Heap) (q : BatchQueue)
         (lockedData : LockedData) (c : Z),
  let q' := fst (fst (BatchQueue_SetTransforms renderer h q lockedData c)) in
  Forall2 onlyStartIndexChanged (priorityBatchGroups_ q) (priorityBatchGroups_ q') /\
  Forall2 onlyStartIndexChanged (batchGroups_ q) (batchGroups_ q') /\
  batches_ q' = batches_ q /\
  sortedPriorityBatches_ q' = sortedPriorityBatches_ q /\
  sortedBatches_ q' = sortedBatches_ q /\
  sortedPriorityBatchGroups_ q' = sortedPriorityBatchGroups_ q /\
  sortedBatchGroups_ q' = sortedBatchGroups_ q /\
  GetNumInstances renderer h q' = GetNumInstances renderer h q.
Proof.
  intros renderer h q lockedData c q'. subst q'.
  unfold BatchQueue_SetTransforms, GetNumInstances.
  pose proof (Map_SetTransforms_keeps renderer h (priorityBatchGroups_ q) lockedData c) as H1.
  destruct (Map_SetTransforms renderer h (priorityBatchGroups_ q) lockedData c)
    as [[pg d1] c1]. simpl in H1.
  pose proof (Map_SetTransforms_keeps renderer h (batchGroups_ q) d1 c1) as H2.
  destruct (Map_SetTransforms renderer h (batchGroups_ q) d1 c1) as [[gs d2] c2].
  simpl in H2. simpl.
  split; [apply (H1 0) |]. split; [apply (H2 0) |].
  repeat (split; [reflexivity |]).
  rewrite (proj2 (H1 0)). apply H2.
Qed.

(** ** The paths of [BatchGroup::Draw] *)

Lemma fold_individual (g : BatchGroup) (l : list InstanceData) (w : World) :
  let w' :=
    fold_left (fun w i =>
        emitDraw g (emit (SetModelTransform (transforms (heap w) (i_worldTransform_ i))) w))
      l w in
  heap w' = heap w /\ lockResults w' = lockResults w /\
  calls w' = calls w ++ flat_map (individualCalls (heap w) g) l.
Proof.
  revert w. induction l as [| i l IH]; intros w; simpl.
  - now rewrite app_nil_r.
  - match goal with
    | |- context [fold_left ?f l ?x] => destruct (IH x) as (Hh & Hl & Hc)
    end.
    rewrite Hh, Hl, Hc. unfold emitDraw. simpl.
    rewrite <- !app_assoc. auto.
Qed.

Lemma drawIndividually_spec (g : BatchGroup) (w : World) :
  let w' := drawIndividually (groupBatch g) g w in
  let w0 := Batch_Prepare (groupBatch g) false w in
  let geom := geometries (heap w) (g_geometry_ g) in
  heap w' = heap w /\ lockResults w' = lockResults w /\
  calls w' =
    calls w0 ++
    [SetIndexBuffer (GetIndexBuffer geom);
     SetVertexBuffers (GetVertexBuffers geom) (GetVertexElementMasks geom) None] ++
    flat_map (individualCalls (heap w) g) (g_instances_ g) ++
    [ClearTransformSources].
Proof.
  unfold drawIndividually.
  destruct (Batch_Prepare_frame (groupBatch g) false w) as (Hh0 & Hl0 & _).
  set (w0 := Batch_Prepare (groupBatch g) false w) in *.
  set (w1 := emitSetBuffers g None w0).
  destruct (fold_individual g (g_instances_ g) w1) as (Hh & Hl & Hc).
  simpl. rewrite Hh, Hl, Hc. unfold w1, emitSetBuffers. simpl.
  rewrite Hh0, Hl0. rewrite <- !app_assoc. auto.
Qed.

Lemma chunkStep_frame (g : BatchGroup) (vb : VertexBuffer) (startIndex c : nat) (w : World) :
  let w' := chunkStep g vb startIndex c w in
  heap w' = heap w /\ lockResults w' = lockResults w /\
  exists added, calls w' = calls w ++ added.
Proof.
  unfold chunkStep, copyTransforms.
  destruct (fold_emit
    (fun h i => Store (vb_address vb) i
       (transforms h (i_worldTransform_
          (nth (i + startIndex) (g_instances_ g) InstanceData_default))))
    (seq 0 c) w) as (Hh & Hl & Hc).
  unfold emitDrawInstanced, emitSetBuffers. simpl.
  rewrite Hh, Hl, Hc. split; [reflexivity |]. split; [reflexivity |].
  eexists. rewrite <- !app_assoc. reflexivity.
Qed.

(** The chunk loop, whatever the capacity and the lock results: it leaves
    the objects in memory alone, except that on a failed lock it pops the
    instancing stream. *)
Lemma fillAndDraw_frame (g : BatchGroup) (vb : VertexBuffer) (fuel startIndex : nat) (w : World) :
  match fillAndDraw fuel g vb startIndex w with
  | Completed w1 =>
      heap w1 = heap w /\
      (exists added, calls w1 = calls w ++ added) /\
      (exists used, lockResults w1 = skipn used (lockResults w))
  | Aborted w1 =>
      exists w2,
        w1 = updateGeometry (g_geometry_ g) popStream w2 /\ heap w2 = heap w /\
        (exists added, calls w2 = calls w ++ added) /\
        (exists used, lockResults w2 = skipn used (lockResults w))
  | OutOfFuel => True
  end.
Proof.
  revert startIndex w. induction fuel as [| fuel IH]; intros startIndex w;
    cbn [fillAndDraw];
    destruct (startIndex <? length (g_instances_ g))%nat.
  - exact I.
  - split; [reflexivity |]. split; [exists []; now rewrite app_nil_r | now exists 0%nat].
  - set (c := if (vb_GetVertexCount vb <? length (g_instances_ g) - startIndex)%nat
              then vb_GetVertexCount vb else (length (g_instances_ g) - startIndex)%nat).
    unfold VertexBuffer_Lock.
    set (ok := match lockResults w with [] => true | r :: _ => r end).
    set (wL := mkWorld (heap w) (calls w ++ [Lock (vb_address vb) 0 c ok])
                 (tl (lockResults w))).
    destruct ok; cbn [negb].
    + destruct (chunkStep_frame g vb startIndex c wL) as (Hh & Hl & (a1 & Hc)).
      specialize (IH (startIndex + c)%nat (chunkStep g vb startIndex c wL)).
      change (emitDrawInstanced g c
                (emitSetBuffers g None
                   (emit (Unlock (vb_address vb)) (copyTransforms g vb startIndex c wL))))
        with (chunkStep g vb startIndex c wL).
      destruct (fillAndDraw fuel g vb (startIndex + c) (chunkStep g vb startIndex c wL))
        as [w1 | w1 |]; [| | exact I].
      * destruct IH as (H1 & (a2 & H2) & (u & H3)).
        split; [now rewrite H1, Hh |]. split.
        -- eexists. rewrite H2, Hc. simpl. rewrite <- !app_assoc. reflexivity.
        -- exists (u + 1)%nat. rewrite H3, Hl. simpl lockResults.
           rewrite <- skipn_skipn. now destruct (lockResults w); rewrite ?skipn_nil.
      * destruct IH as (w2 & -> & H1 & (a2 & H2) & (u & H3)).
        exists w2. split; [reflexivity |]. split; [now rewrite H1, Hh |]. split.
        -- eexists. rewrite H2, Hc. simpl. rewrite <- !app_assoc. reflexivity.
        -- exists (u + 1)%nat. rewrite H3, Hl. simpl lockResults.
           rewrite <- skipn_skipn. now destruct (lockResults w); rewrite ?skipn_nil.
    + exists wL. split; [reflexivity |]. split; [reflexivity |]. split.
      * eexists. reflexivity.
      * exists 1%nat. simpl. now destruct (lockResults w).
  - split; [reflexivity |]. split; [exists []; now rewrite app_nil_r | now exists 0%nat].
Qed.

(** With capacity zero and no failing lock the chunk loop never ends. *)
Lemma fillAndDraw_zero_capacity (g : BatchGroup) (vb : VertexBuffer)
    (fuel startIndex : nat) (w : World) :
  vb_GetVertexCount vb = 0%nat -> locksSucceed w ->
  (startIndex < length (g_instances_ g))%nat ->
  fillAndDraw fuel g vb startIndex w = OutOfFuel.
Proof.
  intros Hcap. revert startIndex w.
  induction fuel as [| fuel IH]; intros startIndex w Hlocks Hlt; cbn [fillAndDraw];
    destruct (Nat.ltb_spec startIndex (length (g_instances_ g))); try lia;
    [reflexivity |].
  rewrite Hcap.
  destruct (Nat.ltb_spec 0 (length (g_instances_ g) - startIndex)); [| lia].
  unfold VertexBuffer_Lock.
  assert (Hok : match lockResults w with [] => true | r :: _ => r end = true).
  { unfold locksSucceed in Hlocks. destruct Hlocks; [reflexivity | assumption]. }
  rewrite Hok. cbn [negb].
  match goal with
  | |- fillAndDraw _ _ _ _ ?x = _ =>
      change x with (chunkStep g vb startIndex 0
                       (mkWorld (heap w) (calls w ++ [Lock (vb_address vb) 0 0 true])
                          (tl (lockResults w))))
  end.
  apply IH; [| lia].
  destruct (chunkStep_frame g vb startIndex 0
              (mkWorld (heap w) (calls w ++ [Lock (vb_address vb) 0 0 true])
                 (tl (lockResults w)))) as (_ & Hl & _).
  unfold locksSucceed in *. rewrite Hl. simpl.
  destruct Hlocks; [constructor | assumption].
Qed.

Lemma Batch_Prepare_calls (batch : Batch) (setModelTransform : bool) (w : World) :
  exists added, calls (Batch_Prepare batch setModelTransform w) = calls w ++ added.
Proof.
  unfold Batch_Prepare.
  destruct ((vertexShader_ batch =? 0) || (pixelShader_ batch =? 0)); simpl.
  - exists []. now rewrite app_nil_r.
  - eexists. reflexivity.
Qed.

Lemma drawFrame_refl (w : World) : drawFrame w w.
Proof.
  repeat split; [exists []; now rewrite app_nil_r | now exists 0%nat].
Qed.

Lemma chunkSizes_length (capacity fuel remaining : nat) :
  (0 < capacity)%nat -> (remaining <= fuel)%nat ->
  length (chunkSizes fuel remaining capacity) = ((remaining + capacity - 1) / capacity)%nat.
Proof.
  intros Hcap. revert remaining.
  induction fuel as [| fuel IH]; intros remaining Hle.
  - assert (remaining = 0%nat) as -> by lia. simpl.
    symmetry. apply Nat.div_small. lia.
  - simpl. destruct (Nat.eqb_spec remaining 0) as [-> | Hne].
    + simpl. symmetry. apply Nat.div_small. lia.
    + simpl. rewrite IH by lia.
      destruct (Nat.le_gt_cases remaining capacity) as [Hsmall | Hbig].
      * rewrite Nat.min_l by lia.
        replace (remaining - remaining + capacity - 1)%nat with (capacity - 1)%nat by lia.
        rewrite Nat.div_small by lia.
        apply (Nat.div_unique _ _ 1%nat (remaining - 1)%nat); lia.
      * rewrite Nat.min_r by lia.
        replace (remaining + capacity - 1)%nat
          with ((remaining - 1) + 1 * capacity)%nat by lia.
        rewrite Nat.div_add by lia.
        replace (remaining - capacity + capacity - 1)%nat with (remaining - 1)%nat by lia.
        lia.
Qed.

Lemma chunkSizes_full (capacity fuel remaining k c : nat) :
  (0 < capacity)%nat ->
  nth_error (chunkSizes fuel remaining capacity) k = Some c ->
  (0 < c <= capacity)%nat /\
  ((S k < length (chunkSizes fuel remaining capacity))%nat -> c = capacity).
Proof.
  intros Hcap. revert remaining k.
  induction fuel as [| fuel IH]; intros remaining k; simpl.
  - destruct k; discriminate.
  - destruct (Nat.eqb_spec remaining 0) as [-> | Hne].
    + destruct k; discriminate.
    + destruct k as [| k]; simpl.
      * intros H. injection H as <-. split; [lia |].
        intros Hnext.
        destruct (Nat.le_gt_cases remaining capacity) as [Hsmall | Hbig]; [| lia].
        exfalso. rewrite Nat.min_l in Hnext by lia.
        rewrite Nat.sub_diag in Hnext.
        destruct fuel; simpl in Hnext; lia.
      * intros H. destruct (IH _ _ H) as [Hb Hf]. split; [exact Hb |].
        intros Hnext. apply Hf. lia.
Qed.

Lemma instancedDraws_individual (h : Heap) (g : BatchGroup) (l : list InstanceData) :
  instancedDraws (flat_map (individualCalls h g) l) = [].
Proof. induction l as [| i l IH]; [reflexivity | exact IH]. Qed.

Section DrawPaths.

Variables GEOM_INSTANCED MAX_LIGHT_VS_VARIATIONS : Z.
Variable renderer : Renderer.

Lemma beginInstanced_calls (g : BatchGroup) (vb : VertexBuffer) (w : World) :
  exists added,
    calls (beginInstanced GEOM_INSTANCED MAX_LIGHT_VS_VARIATIONS g vb w) = calls w ++ added.
Proof. unfold beginInstanced. simpl. apply Batch_Prepare_calls. Qed.

(** [BatchGroup::Draw] on the path that locks and fills, as the chunk
    loop unrolled. *)
Lemma BatchGroup_Draw_unrolled (g : BatchGroup) (vb : VertexBuffer) (w : World) :
  GetInstancingBuffer renderer = Some vb ->
  g_instances_ g <> [] ->
  notInstanced renderer (heap w) g = false ->
  g_startIndex_ g = M_MAX_UNSIGNED ->
  (0 < vb_GetVertexCount vb)%nat ->
  BatchGroup_Draw GEOM_INSTANCED MAX_LIGHT_VS_VARIATIONS renderer g w =
  match runChunks
          (chunkSizes (length (g_instances_ g)) (length (g_instances_ g))
             (vb_GetVertexCount vb))
          g vb 0 (beginInstanced GEOM_INSTANCED MAX_LIGHT_VS_VARIATIONS g vb w) with
  | Completed w1 => Some (updateGeometry (g_geometry_ g) popStream w1)
  | Aborted w1 => Some w1
  | OutOfFuel => None
  end.
Proof.
  intros Hbuf Hne Hni Hstart Hcap. unfold BatchGroup_Draw.
  destruct (Nat.eqb_spec (length (g_instances_ g)) 0) as [H0 | _].
  { exfalso. apply Hne. now apply length_zero_iff_nil. }
  rewrite Hbuf, Hni, Hstart, Z.eqb_refl.
  rewrite fillAndDraw_runChunks by (lia || exact Hcap).
  rewrite Nat.sub_0_r.
  rewrite (chunkSizes_fuel _ _ (length (g_instances_ g))) by (lia || exact Hcap).
  reflexivity.
Qed.

End DrawPaths.

(** X14.  A non-empty group that cannot be instanced (no instancing
    buffer, fewer instances than the minimum, or a geometry over the index
    limit) is drawn instance by instance: after the preparation and one
    binding of the geometry's own buffers, each instance in insertion
    order has its transform bound and one non-instanced draw issued, then
    the transform sources are cleared.  No instanced draw is issued, no
    lock is taken and no object in memory changes. *)
Theorem BatchGroup_Draw_individually :
  forall (GEOM_INSTANCED MAX_LIGHT_VS_VARIATIONS : Z)
         (renderer : Renderer) (g : BatchGroup) (w : World),
  g_instances_ g <> [] ->
  GetInstancingBuffer renderer = None \/ notInstanced renderer (heap w) g = true ->
  let geom := geometries (heap w) (g_geometry_ g) in
  let w0 := Batch_Prepare (groupBatch g) false w in
  exists w',
    BatchGroup_Draw GEOM_INSTANCED MAX_LIGHT_VS_VARIATIONS renderer g w = Some w' /\
    calls w' =
      calls w0 ++
      [SetIndexBuffer (GetIndexBuffer geom);
       SetVertexBuffers (GetVertexBuffers geom) (GetVertexElementMasks geom) None] ++
      flat_map (individualCalls (heap w) g) (g_instances_ g) ++
      [ClearTransformSources] /\
    instancedDraws (calls w') = instancedDraws (calls w) /\
    heap w' = heap w /\ lockResults w' = lockResults w.
Proof.
  intros GI MLV renderer g w Hne Hpath geom w0.
  destruct (drawIndividually_spec g w) as (Hh & Hl & Hc).
  fold w0 geom in Hc.
  exists (drawIndividually (groupBatch g) g w).
  split.
  { unfold BatchGroup_Draw.
    destruct (Nat.eqb_spec (length (g_instances_ g)) 0) as [H0 | _].
    { exfalso. apply Hne. now apply length_zero_iff_nil. }
    destruct Hpath as [-> | Hni]; [reflexivity |].
    destruct (GetInstancingBuffer renderer); [now rewrite Hni | reflexivity]. }
  split; [exact Hc |].
  split; [| now split].
  rewrite Hc, !instancedDraws_app.
  destruct (Batch_Prepare_frame (groupBatch g) false w) as (_ & _ & Hd).
  fold w0 in Hd. rewrite Hd. simpl.
  rewrite instancedDraws_individual. simpl. now rewrite app_nil_r.
Qed.

(** X14 on the sample group when the renderer has no instancing buffer. *)
Lemma BatchGroup_Draw_individually_witness :
  exists w',
    BatchGroup_Draw 2 6 (mkRenderer 2 10000 None) sampleGroup sampleWorld = Some w' /\
    instancedDraws (calls w') = [] /\ heap w' = heap sampleWorld.
Proof.
  destruct (BatchGroup_Draw_individually 2 6 (mkRenderer 2 10000 None) sampleGroup
              sampleWorld ltac:(discriminate) (or_introl eq_refl))
    as (w' & Hdraw & _ & Hinst & Hheap & _).
  exists w'. repeat split; assumption.
Defined.

(** X15.  A group that [BatchGroup::SetTransforms] gave buffer space at a
    cursor other than the sentinel is drawn with one instanced draw call
    of all its instances: after the preparation, the geometry's buffers
    are bound with the instancing buffer as last stream at the group's
    start index as offset, and the draw is issued.  No lock is taken, and
    the geometry has its own buffer lists again afterwards. *)
Theorem BatchGroup_Draw_prefilled :
  forall (GEOM_INSTANCED MAX_LIGHT_VS_VARIATIONS : Z)
         (renderer : Renderer) (vb : VertexBuffer) (g : BatchGroup) (w : World)
         (lockedData : LockedData) (c : Z),
  GetInstancingBuffer renderer = Some vb ->
  g_instances_ g <> [] ->
  notInstanced renderer (heap w) g = false ->
  c <> M_MAX_UNSIGNED ->
  let g' := fst (fst (BatchGroup_SetTransforms renderer (heap w) g lockedData c)) in
  let geom := geometries (heap w) (g_geometry_ g) in
  let w0 := beginInstanced GEOM_INSTANCED MAX_LIGHT_VS_VARIATIONS g' vb w in
  exists w',
    BatchGroup_Draw GEOM_INSTANCED MAX_LIGHT_VS_VARIATIONS renderer g' w = Some w' /\
    calls w' =
      calls w0 ++
      [SetIndexBuffer (GetIndexBuffer geom);
       SetVertexBuffers (GetVertexBuffers geom ++ [vb_address vb])
         (GetVertexElementMasks geom ++ [vb_GetElementMask vb]) (Some c);
       DrawInstanced (GetPrimitiveType geom) (GetIndexStart geom) (GetIndexCount geom)
         (GetVertexStart geom) (GetVertexCount geom) (length (g_instances_ g))] /\
    lockResults w' = lockResults w /\
    (forall a, geometries (heap w') a = geometries (heap w) a).
Proof.
  intros GI MLV renderer vb g w lockedData c Hbuf Hne Hni Hc g' geom w0.
  assert (Hg' : g' = set_startIndex g c).
  { unfold g', BatchGroup_SetTransforms. now rewrite Hni. }
  clearbody g'. subst g'.
  destruct (beginInstanced_frame GI MLV (set_startIndex g c) vb w)
    as (Hg0 & Hp0 & Ht0 & Hl0 & _).
  fold w0 in Hg0, Hp0, Ht0, Hl0.
  change (g_geometry_ (set_startIndex g c)) with (g_geometry_ g) in Hg0.
  set (w1 := emitDrawInstanced (set_startIndex g c) (length (g_instances_ g))
               (emitSetBuffers (set_startIndex g c) (Some c) w0)).
  exists (updateGeometry (g_geometry_ g) popStream w1).
  split.
  { unfold BatchGroup_Draw.
    change (g_instances_ (set_startIndex g c)) with (g_instances_ g).
    change (notInstanced renderer (heap w) (set_startIndex g c))
      with (notInstanced renderer (heap w) g).
    change (g_startIndex_ (set_startIndex g c)) with c.
    change (g_geometry_ (set_startIndex g c)) with (g_geometry_ g).
    destruct (Nat.eqb_spec (length (g_instances_ g)) 0) as [H0 | _].
    { exfalso. apply Hne. now apply length_zero_iff_nil. }
    rewrite Hbuf, Hni.
    destruct (Z.eqb_spec c M_MAX_UNSIGNED); [contradiction | reflexivity]. }
  split.
  { clearbody w0. unfold w1, emitDrawInstanced, emitSetBuffers, emit. simpl.
    rewrite !Hg0, Z.eqb_refl. fold geom. simpl.
    rewrite <- !app_assoc. reflexivity. }
  split; [exact Hl0 |].
  apply (popStream_restores GI MLV (set_startIndex g c) vb w w1). reflexivity.
Qed.

(** X15 on the sample group given space at cursor 7. *)
Lemma BatchGroup_Draw_prefilled_witness :
  exists w',
    BatchGroup_Draw 2 6 sampleRenderer
      (fst (fst (BatchGroup_SetTransforms sampleRenderer sampleHeap sampleGroup [] 7)))
      sampleWorld = Some w' /\
    instancedDraws (calls w') = [5%nat] /\
    lockResults w' = lockResults sampleWorld.
Proof.
  destruct (BatchGroup_Draw_prefilled 2 6 sampleRenderer sampleBuffer sampleGroup
              sampleWorld [] 7 eq_refl ltac:(discriminate) eq_refl ltac:(discriminate))
    as (w' & Hdraw & Hcalls & Hlocks & _).
  exists w'. split; [exact Hdraw |]. split; [| exact Hlocks].
  rewrite Hcalls. reflexivity.
Defined.

(** X16.  Whatever the group, the renderer, the capacity and the lock
    results, a [BatchGroup::Draw] that returns leaves every geometry with
    the vertex-buffer and element-mask lists it had (the instancing
    stream never stays attached), leaves passes and transforms alone,
    only adds calls, and uses lock results up only from the front. *)
Theorem BatchGroup_Draw_frame :
  forall (GEOM_INSTANCED MAX_LIGHT_VS_VARIATIONS : Z)
         (renderer : Renderer) (g : BatchGroup) (w w' : World),
  BatchGroup_Draw GEOM_INSTANCED MAX_LIGHT_VS_VARIATIONS renderer g w = Some w' ->
  drawFrame w w'.
Proof.
  intros GI MLV renderer g w w'. unfold BatchGroup_Draw.
  assert (Hfallback : drawFrame w (drawIndividually (groupBatch g) g w)).
  { destruct (drawIndividually_spec g w) as (Hh & Hl & Hc).
    destruct (Batch_Prepare_calls (groupBatch g) false w) as (a0 & Ha0).
    unfold drawFrame. rewrite Hh, Hl, Hc, Ha0.
    repeat split; [eexists; rewrite <- !app_assoc; reflexivity | now exists 0%nat]. }
  destruct (length (g_instances_ g) =? 0)%nat.
  { intros H. injection H as <-. apply drawFrame_refl. }
  destruct (GetInstancingBuffer renderer) as [vb |];
    [| intros H; injection H as <-; exact Hfallback].
  destruct (notInstanced renderer (heap w) g);
    [intros H; injection H as <-; exact Hfallback |].
  destruct (beginInstanced_frame GI MLV g vb w) as (_ & _ & _ & Hl0 & _).
  destruct (beginInstanced_calls GI MLV g vb w) as (a0 & Ha0).
  set (w0 := beginInstanced GI MLV g vb w) in *.
  assert (Hpop : forall w1,
            heap w1 = heap w0 ->
            (exists added, calls w1 = calls w0 ++ added) ->
            (exists used, lockResults w1 = skipn used (lockResults w0)) ->
            drawFrame w (updateGeometry (g_geometry_ g) popStream w1)).
  { intros w1 Hh (a1 & Ha1) (u & Hu).
    destruct (popStream_restores GI MLV g vb w w1 Hh) as (Hg & Hp & Ht).
    unfold drawFrame. split; [exact Hg |]. split; [exact Hp |]. split; [exact Ht |].
    simpl. rewrite Ha1, Ha0, Hu, Hl0. split.
    - eexists. rewrite <- app_assoc. reflexivity.
    - now exists u. }
  destruct (g_startIndex_ g =? M_MAX_UNSIGNED).
  - pose proof (fillAndDraw_frame g vb
                  (length (g_instances_ g) + length (lockResults w0)) 0 w0) as Hloop.
    destruct (fillAndDraw _ g vb 0 w0) as [w1 | w1 |]; [| | discriminate].
    + intros H. injection H as <-.
      destruct Hloop as (Hh & Ha & Hu). now apply Hpop.
    + intros H. injection H as <-.
      destruct Hloop as (w2 & -> & Hh & Ha & Hu). now apply Hpop.
  - intros H. injection H as <-. apply Hpop.
    + reflexivity.
    + unfold emitDrawInstanced, emitSetBuffers. simpl.
      eexists. rewrite <- !app_assoc. reflexivity.
    + now exists 0%nat.
Qed.

(** X16 on the sample group when the second lock fails. *)
Lemma BatchGroup_Draw_frame_witness :
  exists w',
    BatchGroup_Draw 2 6 sampleRenderer sampleGroup failingWorld = Some w' /\
    drawFrame failingWorld w'.
Proof.
  eexists. split; [reflexivity |].
  apply (BatchGroup_Draw_frame 2 6 sampleRenderer sampleGroup failingWorld).
  reflexivity.
Defined.

(** X17.  [BatchGroup::Draw] fails to return in exactly one situation:
    a non-empty group that is to be instanced, without a start index,
    with an instancing buffer of capacity zero whose locks all succeed
    (the chunk loop then draws zero instances for ever).  In particular
    it returns whenever the buffer's capacity is positive. *)
Theorem BatchGroup_Draw_nontermination :
  forall (GEOM_INSTANCED MAX_LIGHT_VS_VARIATIONS : Z)
         (renderer : Renderer) (g : BatchGroup) (w : World),
  BatchGroup_Draw GEOM_INSTANCED MAX_LIGHT_VS_VARIATIONS renderer g w = None <->
  (g_instances_ g <> [] /\
   notInstanced renderer (heap w) g = false /\
   g_startIndex_ g = M_MAX_UNSIGNED /\
   locksSucceed w /\
   exists vb, GetInstancingBuffer renderer = Some vb /\ vb_GetVertexCount vb = 0%nat).
Proof.
  intros GI MLV renderer g w. unfold BatchGroup_Draw. split.
  - destruct (Nat.eqb_spec (length (g_instances_ g)) 0) as [H0 | Hn]; [discriminate |].
    destruct (GetInstancingBuffer renderer) as [vb |]; [| discriminate].
    destruct (notInstanced renderer (heap w) g); [discriminate |].
    destruct (Z.eqb_spec (g_startIndex_ g) M_MAX_UNSIGNED) as [Hs | _]; [| discriminate].
    destruct (beginInstanced_frame GI MLV g vb w) as (_ & _ & _ & Hl & _).
    destruct (fillAndDraw _ g vb 0 _) eqn:Hloop; try discriminate.
    intros _. apply fillAndDraw_OutOfFuel in Hloop; [| lia].
    destruct Hloop as [Hcap Hlocks].
    split; [intros Hnil; now rewrite Hnil in Hn |].
    split; [reflexivity |]. split; [exact Hs |].
    split; [unfold locksSucceed in *; now rewrite Hl in Hlocks |].
    now exists vb.
  - intros (Hne & Hni & Hs & Hlocks & vb & Hbuf & Hcap).
    destruct (Nat.eqb_spec (length (g_instances_ g)) 0) as [H0 | Hn].
    { exfalso. apply Hne. now apply length_zero_iff_nil. }
    rewrite Hbuf, Hni, Hs, Z.eqb_refl.
    destruct (beginInstanced_frame GI MLV g vb w) as (_ & _ & _ & Hl & _).
    rewrite fillAndDraw_zero_capacity; [reflexivity | exact Hcap | | lia].
    unfold locksSucceed in *. now rewrite Hl.
Qed.

(** X18.  When no lock fails, a group of [n] instances drawn through a
    buffer of capacity [capacity] takes [ceil (n / capacity)] locks and
    issues as many instanced draw calls; every one but the last draws a
    full buffer, and none draws nothing. *)
Theorem BatchGroup_Draw_chunk_count :
  forall (GEOM_INSTANCED MAX_LIGHT_VS_VARIATIONS : Z)
         (renderer : Renderer) (vb : VertexBuffer) (g : BatchGroup) (w : World),
  GetInstancingBuffer renderer = Some vb ->
  g_instances_ g <> [] ->
  notInstanced renderer (heap w) g = false ->
  g_startIndex_ g = M_MAX_UNSIGNED ->
  (0 < vb_GetVertexCount vb)%nat ->
  locksSucceed w ->
  let n := length (g_instances_ g) in
  let capacity := vb_GetVertexCount vb in
  let count := ((n + capacity - 1) / capacity)%nat in
  exists w' sizes,
    BatchGroup_Draw GEOM_INSTANCED MAX_LIGHT_VS_VARIATIONS renderer g w = Some w' /\
    instancedDraws (calls w') = instancedDraws (calls w) ++ sizes /\
    length sizes = count /\
    lockResults w' = skipn count (lockResults w) /\
    (forall k c, nth_error sizes k = Some c ->
       (0 < c <= capacity)%nat /\ ((S k < count)%nat -> c = capacity)).
Proof.
  intros GI MLV renderer vb g w Hbuf Hne Hni Hstart Hcap Hlocks n capacity count.
  set (sizes := chunkSizes n n capacity).
  assert (Hlen : length sizes = count) by (apply chunkSizes_length; [exact Hcap | lia]).
  assert (Hsum : list_sum sizes = n) by (apply chunkSizes_sum; [exact Hcap | lia]).
  destruct (beginInstanced_frame GI MLV g vb w) as (_ & _ & _ & Hl0 & Hd0).
  set (w0 := beginInstanced GI MLV g vb w) in *.
  destruct (runChunks_completed g vb sizes 0 w0) as (w1 & Hrun & Hh1 & Hl1 & Hc1).
  { rewrite Hl0. now apply locksSucceed_firstn. }
  { fold n. lia. }
  exists (updateGeometry (g_geometry_ g) popStream w1), sizes.
  split.
  { rewrite (BatchGroup_Draw_unrolled GI MLV renderer g vb w Hbuf Hne Hni Hstart Hcap).
    fold n capacity sizes w0. now rewrite Hrun. }
  split.
  { simpl calls. rewrite Hc1, instancedDraws_app, instancedDraws_chunks, Hd0.
    simpl skipn. rewrite splitBy_lengths by (fold n; lia). reflexivity. }
  split; [exact Hlen |].
  split; [simpl; now rewrite Hl1, Hl0, Hlen |].
  intros k c Hk. rewrite <- Hlen. now apply chunkSizes_full.
Qed.

(** X18 on the sample group: five instances through a buffer of two take
    three locks and three draws. *)
Lemma BatchGroup_Draw_chunk_count_witness :
  exists w' sizes,
    BatchGroup_Draw 2 6 sampleRenderer sampleGroup sampleWorld = Some w' /\
    instancedDraws (calls w') = sizes /\ length sizes = 3%nat.
Proof.
  destruct (BatchGroup_Draw_chunk_count 2 6 sampleRenderer sampleBuffer sampleGroup
              sampleWorld eq_refl ltac:(discriminate) eq_refl eq_refl
              ltac:(simpl; lia) ltac:(constructor))
    as (w' & sizes & Hdraw & Hsizes & Hlen & _).
  exists w', sizes. repeat split; assumption.
Defined.
